(** * Catalog-to-registry transformation: a shallow embedding

    The seed generator reads the Docker MCP catalog and rewrites every entry
    into a descriptor of the MCP registry schema.  This file embeds its
    transformation core ([buildConfigMap], [transformEntry], [convertBraces],
    [extractVars] and the batch loop of [main]) and proves the properties the
    specification states about it.  It then embeds the middleware of the
    registry's HTTP server ([CORSMiddleware], in both revisions,
    [TrailingSlashMiddleware] and the way [NewServer] composes them) and
    proves further properties of both programs.

    Conventions of the embedding:
    - a Go [string] is a sequence of bytes: [string] of the Standard Library,
      whose characters are 8-bit; [len] is [String.length];
    - a slice expression panics when its bounds are out of range: slicing
      returns [option], [None] being the panic, and the functions that slice
      live in the option monad;
    - a Go map is a [gmap]; a [nil] map or slice and an empty one are the same
      value (the code only applies [len] and [range] to them);
    - [range] over a map visits every entry once, in an order the language
      leaves unspecified: the order is an explicit argument ([MapOrder]). *)

From Stdlib Require Import PrimFloat ZArith Ascii.
From stdpp Require Import gmap strings list fin_maps.
From Equations Require Import Equations.
From Equations.Prop Require Logic.

#[local] Arguments String.append : simpl nomatch.

(** ** Slice expressions on strings *)

(** [s[:n]] without the bounds check. *)
Fixpoint str_take (n : nat) (s : string) : string :=
  match n, s with
  | S k, String c s' => String c (str_take k s')
  | _, _ => ""
  end.

(** [s[n:]] without the bounds check. *)
Fixpoint str_drop (n : nat) (s : string) : string :=
  match n, s with
  | S k, String _ s' => str_drop k s'
  | _, _ => s
  end.

(** [s[lo:hi]]: panics unless [lo <= hi <= len(s)]. *)
Definition slice (s : string) (lo hi : nat) : option string :=
  if decide (lo ≤ hi ∧ hi ≤ String.length s)
  then Some (str_take (hi - lo) (str_drop lo s))
  else None.

(** [s[lo:]] *)
Definition slice_from (s : string) (lo : nat) : option string :=
  slice s lo (String.length s).

(** [s[:hi]] *)
Definition slice_to (s : string) (hi : nat) : option string :=
  slice s 0 hi.

(** ** The functions of package [strings] the program calls

    They are modelled from their documentation: [Index] is the position of
    the first occurrence, [ReplaceAll] replaces the non-overlapping
    occurrences from left to right, [Split] cuts at every separator. *)

Module strings.

(** [strings.HasPrefix(s, prefix)] *)
Definition HasPrefix (s pre : string) : bool := String.prefix pre s.

(** [strings.Index(s, substr)]: [None] stands for the result [-1]. *)
Fixpoint Index (s substr : string) : option nat :=
  if String.prefix substr s then Some 0
  else match s with
       | "" => None
       | String _ s' => S <$> Index s' substr
       end.

(** [strings.Contains(s, substr)] is [Index(s, substr) >= 0]. *)
Definition Contains (s substr : string) : bool :=
  match Index s substr with Some _ => true | None => false end.

(** The scan of [strings.Replace] for a non-empty [old]: [skip] counts the
    bytes of a matched occurrence that are still to be passed over. *)
Fixpoint replace_scan (old new : string) (skip : nat) (s : string) : string :=
  match s with
  | "" => ""
  | String c s' =>
      match skip with
      | S k => replace_scan old new k s'
      | 0 =>
          if String.prefix old s
          then new +:+ replace_scan old new (String.length old - 1) s'
          else String c (replace_scan old new 0 s')
      end
  end.

(** [strings.ReplaceAll(s, old, new)], for the non-empty [old] of both call
    sites. *)
Definition ReplaceAll (s old new : string) : string := replace_scan old new 0 s.

(** The loop of [genSplit]: at most [n] cuts, then the rest. *)
Fixpoint genSplit (n : nat) (s sep : string) : list string :=
  match n with
  | 0 => [s]
  | S k =>
      match Index s sep with
      | None => [s]
      | Some m => str_take m s :: genSplit k (str_drop (m + String.length sep) s) sep
      end
  end.

(** [strings.Split(s, sep)] for a non-empty [sep]: a string of [len(s)] bytes
    holds at most [len(s)] separators. *)
Definition Split (s sep : string) : list string := genSplit (String.length s) s sep.

(** [strings.SplitN(s, sep, n)] for a non-empty [sep]: [n = 0] gives no
    piece, [n < 0] every piece, [n > 0] at most [n] pieces. *)
Definition SplitN (s sep : string) (n : Z) : list string :=
  if decide (n = 0)%Z then []
  else if decide (n < 0)%Z then Split s sep
  else genSplit (Z.to_nat (n - 1)) s sep.

(** [strings.HasSuffix(s, suffix)] *)
Definition HasSuffix (s suffix : string) : bool :=
  bool_decide (String.length suffix ≤ String.length s)
  && String.eqb (str_drop (String.length s - String.length suffix) s) suffix.

(** [strings.TrimSuffix(s, suffix)] *)
Definition TrimSuffix (s suffix : string) : string :=
  if HasSuffix s suffix
  then str_take (String.length s - String.length suffix) s
  else s.

End strings.

(** ** Catalog structures (input) *)

Module Tool.
Record t := mk { Name : string }.
End Tool.

(** A value held in an [interface{}]: what [encoding/json] decodes into one
    (nil, bool, float64, string, slice, map) and the typed values the
    metadata bag of [transformEntry] stores. *)
#[warnings="-register-all"]
Inductive Any :=
| ANil
| ABool (b : bool)
| AFloat64 (f : float)
| AString (s : string)
| ASlice (l : list Any)
| AMap (m : gmap string Any)
| AInt (n : Z)
| AStrings (l : list string)
| ATools (l : list Tool.t).

Module Metadata.
Record t := mk {
  Pulls : Z;
  Stars : Z;
  GitHubStars : Z;
  Category : string;
  Tags : list string;
  License : string;
  Owner : string }.
End Metadata.

Module Secret.
Record t := mk { Name : string; Env : string; Example_ : string }.
End Secret.

Module EnvVar.
Record t := mk { Name : string; Value : string }.
End EnvVar.

Module Config.
Record t := mk {
  Name : string;
  Description : string;
  Type_ : string;
  Properties : gmap string Any;
  Required : list string }.
End Config.

Module Remote.
Record t := mk {
  TransportType : string;
  URL : string;
  Headers : gmap string string }.
End Remote.

Module OAuthProvider.
Record t := mk { Provider : string; Secret : string; Env : string }.
End OAuthProvider.

Module OAuth.
Record t := mk { Providers : list OAuthProvider.t }.
End OAuth.

Module DockerCatalogEntry.
Record t := mk {
  Description : string;
  Title : string;
  Type_ : string;
  DateAdded : string;
  Image : string;
  Ref : string;
  Readme : string;
  ToolsURL : string;
  Source : string;
  Upstream : string;
  Icon : string;
  Tools : list Tool.t;
  Prompts : Z;
  Resources : gmap string Any;
  Metadata : Metadata.t;
  Secrets : list Secret.t;
  Env : list EnvVar.t;
  Command : list string;
  Volumes : list string;
  Config : list Config.t;
  Remote : option Remote.t;
  User : string;
  LongLived : bool;
  AllowHosts : list string;
  OAuth : option OAuth.t }.
End DockerCatalogEntry.

Module DockerCatalog.
Record t := mk {
  Name : string;
  DisplayName : string;
  Registry : gmap string DockerCatalogEntry.t }.
End DockerCatalog.

(** ** Registry schema structures (output) *)

Module InputSchema.
Record t := mk {
  IsSecret : bool;
  IsRequired : bool;
  Format : string;
  Description : string }.
End InputSchema.

Module KeyValueInput.
Record t := mk {
  Name : string;
  Value : string;
  Description : string;
  IsRequired : bool;
  IsSecret : bool;
  IsRepeated : bool;
  Variables : gmap string InputSchema.t }.
End KeyValueInput.

Module Argument.
Record t := mk {
  Type_ : string;
  Name : string;
  Value : string;
  IsRequired : bool;
  IsSecret : bool;
  IsRepeated : bool;
  Variables : gmap string InputSchema.t }.
End Argument.

Module Transport.
Record t := mk {
  Type_ : string;
  URL : string;
  Headers : list KeyValueInput.t }.
End Transport.

Module Package.
Record t := mk {
  RegistryType : string;
  Transport : Transport.t;
  Identifier : string;
  Version : string;
  EnvironmentVariables : list KeyValueInput.t;
  PackageArguments : list Argument.t;
  RuntimeArguments : list Argument.t;
  RuntimeHint : string }.
End Package.

Module Repository.
Record t := mk { URL : string; Source : string; Subfolder : string }.
End Repository.

Module RegistryServer.
Record t := mk {
  Schema : string;
  Name : string;
  Description : string;
  Version : string;
  Packages : list Package.t;
  Remotes : list Transport.t;
  Repository : option Repository.t;
  WebsiteURL : string;
  Meta : gmap string Any }.
End RegistryServer.

(** ** Iteration order of [range] over a map

    The three maps the program ranges over.  The properties of the [i]-th
    config block are visited in the order [range_properties i]. *)

Record MapOrder := {
  range_registry :
    gmap string DockerCatalogEntry.t → list (string * DockerCatalogEntry.t);
  range_registry_perm : ∀ m, range_registry m ≡ₚ map_to_list m;
  range_properties : nat → gmap string Any → list (string * Any);
  range_properties_perm : ∀ i m, range_properties i m ≡ₚ map_to_list m;
  range_headers : gmap string string → list (string * string);
  range_headers_perm : ∀ m, range_headers m ≡ₚ map_to_list m }.

(** ** Bounds needed to define the scanning loop *)

Lemma str_drop_length (n : nat) (s : string) :
  String.length (str_drop n s) = String.length s - n.
Proof.
  revert s; induction n as [|n IH]; intros [|c s]; simpl; auto with lia.
Qed.

Lemma prefix_length (p s : string) :
  String.prefix p s = true → String.length p ≤ String.length s.
Proof.
  revert s; induction p as [|a p IH]; intros [|c s]; simpl; try (lia || discriminate).
  destruct (Ascii.ascii_dec a c); [|discriminate]. intros H%IH. lia.
Qed.

Lemma Index_unfold (s substr : string) :
  strings.Index s substr =
  if String.prefix substr s then Some 0
  else match s with
       | "" => None
       | String _ s' => S <$> strings.Index s' substr
       end.
Proof. destruct s; reflexivity. Qed.

Lemma Index_bound (s substr : string) (i : nat) :
  strings.Index s substr = Some i → i + String.length substr ≤ String.length s.
Proof.
  revert i; induction s as [|c s IH]; intros i; rewrite Index_unfold.
  - destruct (String.prefix substr "") eqn:Hp; [|discriminate].
    intros [= <-]. by apply prefix_length in Hp.
  - destruct (String.prefix substr (String c s)) eqn:Hp.
    + intros [= <-]. by apply prefix_length in Hp.
    + destruct (strings.Index s substr) as [j|]; [|discriminate].
      intros [= <-]. specialize (IH j eq_refl). simpl. lia.
Qed.

Lemma slice_from_Some (s : string) (lo : nat) (t : string) :
  slice_from s lo = Some t → lo ≤ String.length s ∧ t = str_drop lo s.
Proof.
  unfold slice_from, slice. case_decide as H; [|discriminate].
  intros [= <-]. split; [lia|].
  generalize (str_drop_length lo s).
  generalize (str_drop lo s) as u. intros u Hu.
  rewrite <- Hu. clear. induction u; simpl; congruence.
Qed.

Lemma str_take_all (s : string) : str_take (String.length s) s = s.
Proof. induction s; simpl; congruence. Qed.

(** ** Placeholder handling *)

Definition convertBraces (value : string) : string :=
  let result := strings.ReplaceAll value "{{" "{" in
  let result := strings.ReplaceAll result "}}" "}" in
  result.

(** How one pass through the body of the [for] loop of [extractVars] ends. *)
Inductive loop_exit :=
| Break
| Continue (start : nat) (variables : gmap string InputSchema.t).

(** The body of the loop, from the scan position [start] and the variables
    gathered so far. *)
Definition extractVars_body (value : string)
    (configMap : gmap string (gmap string Any))
    (start : nat) (variables : gmap string InputSchema.t) : option loop_exit :=
  tail ← slice_from value start;
  match strings.Index tail "{{" with
  | None => Some Break
  | Some idx =>
      let idx := idx + start in
      tail ← slice_from value idx;
      match strings.Index tail "}}" with
      | None => Some Break
      | Some endIdx =>
          let endIdx := endIdx + idx in
          varContent ← slice value (idx + 2) endIdx;
          let parts := strings.Split varContent "|" in
          varName ← parts !! 0;
          let inputSchema := InputSchema.mk false false "string" "" in
          let inputSchema :=
            match configMap !! varName with
            | Some configProp =>
                match configProp !! "description" with
                | Some (AString desc) => InputSchema.mk false false "string" desc
                | _ => inputSchema
                end
            | None => inputSchema
            end in
          Some (Continue (endIdx + 2) (<[varName := inputSchema]> variables))
      end
  end.

Lemma extractVars_body_progress value configMap start variables start' variables' :
  extractVars_body value configMap start variables = Some (Continue start' variables') →
  start + 2 ≤ start' ∧ start' ≤ String.length value.
Proof.
  unfold extractVars_body.
  destruct (slice_from value start) as [tail|] eqn:Ht; [simpl|discriminate].
  destruct (strings.Index tail "{{") as [i|] eqn:Hi; [|discriminate].
  destruct (slice_from value (i + start)) as [tail2|] eqn:Ht2; [simpl|discriminate].
  destruct (strings.Index tail2 "}}") as [j|] eqn:Hj; [|discriminate].
  destruct (slice value _ _); [simpl|discriminate].
  destruct (_ !! 0); [simpl|discriminate].
  intros [= <- _].
  apply slice_from_Some in Ht2 as [? ->]. apply Index_bound in Hj.
  rewrite str_drop_length in Hj. simpl in Hj. lia.
Qed.

Equations? extractVars_loop (value : string)
    (configMap : gmap string (gmap string Any))
    (start : nat) (variables : gmap string InputSchema.t)
    : option (gmap string InputSchema.t)
    by wf (String.length value - start) lt :=
  extractVars_loop value configMap start variables
    with Logic.inspect (extractVars_body value configMap start variables) := {
    | exist _ None _ => None
    | exist _ (Some Break) _ => Some variables
    | exist _ (Some (Continue start' variables')) Hbody =>
        extractVars_loop value configMap start' variables' }.
Proof. apply extractVars_body_progress in Hbody. lia. Qed.

Definition extractVars (value : string)
    (configMap : gmap string (gmap string Any))
    : option (gmap string InputSchema.t) :=
  extractVars_loop value configMap 0 ∅.

(** ** The config index *)

(** The body of the inner loop of [buildConfigMap]: one property of the
    config block [cfgName]. *)
Definition buildConfigMap_property (cfgName : string)
    (result : gmap string (gmap string Any)) (prop : string * Any)
    : gmap string (gmap string Any) :=
  let fullKey := cfgName +:+ "." +:+ prop.1 in
  match prop.2 with
  | AMap propMap => <[fullKey := propMap]> result
  | _ => result
  end.

(** The outer loop, at the config block of position [i]. *)
Fixpoint buildConfigMap_loop (ord : MapOrder) (i : nat) (configs : list Config.t)
    (result : gmap string (gmap string Any)) : gmap string (gmap string Any) :=
  match configs with
  | [] => result
  | cfg :: configs =>
      buildConfigMap_loop ord (S i) configs
        (foldl (buildConfigMap_property (Config.Name cfg)) result
           (range_properties ord i (Config.Properties cfg)))
  end.

Definition buildConfigMap (ord : MapOrder) (configs : list Config.t)
    : gmap string (gmap string Any) :=
  buildConfigMap_loop ord 0 configs ∅.

(** ** Transformation of one entry *)

(** The body of the loop over [entry.Env]. *)
Definition transformEntry_env (configMap : gmap string (gmap string Any))
    (env : EnvVar.t) : option KeyValueInput.t :=
  let value := convertBraces (EnvVar.Value env) in
  let kv := KeyValueInput.mk (EnvVar.Name env) value "" false false false ∅ in
  if strings.Contains (EnvVar.Value env) "{{" then
    variables ← extractVars (EnvVar.Value env) configMap;
    if decide (0 < size variables)
    then Some (KeyValueInput.mk (EnvVar.Name env) value "" false false false variables)
    else Some kv
  else Some kv.

(** The body of the loop over [entry.Secrets]. *)
Definition transformEntry_secret (secret : Secret.t) : KeyValueInput.t :=
  let varName := Secret.Name secret in
  KeyValueInput.mk (Secret.Env secret) ("{" +:+ varName +:+ "}") "" false false false
    {[ varName := InputSchema.mk true true "" "" ]}.

(** The body of the loop over [entry.Command]. *)
Definition transformEntry_command (configMap : gmap string (gmap string Any))
    (cmd : string) : option Argument.t :=
  if strings.HasPrefix cmd "--" then
    let parts := strings.SplitN cmd "=" 2 in
    name ← parts !! 0;
    if decide (1 < length parts) then
      part ← parts !! 1;
      let value := convertBraces part in
      if strings.Contains part "{{" then
        variables ← extractVars part configMap;
        Some (Argument.mk "named" name value false false false variables)
      else Some (Argument.mk "named" name value false false false ∅)
    else Some (Argument.mk "named" name "" false false false ∅)
  else Some (Argument.mk "positional" "" cmd false false false ∅).

(** The runtime argument of a volume ([flag] is ["-v"]) or of the user
    (["-u"]): both blocks of the source have this shape. *)
Definition transformEntry_runtime (configMap : gmap string (gmap string Any))
    (flag value : string) : option Argument.t :=
  let canonical := convertBraces value in
  if strings.Contains value "{{" then
    variables ← extractVars value configMap;
    Some (Argument.mk "named" flag canonical false false false variables)
  else Some (Argument.mk "named" flag canonical false false false ∅).

(** The metadata published under
    ["io.modelcontextprotocol.registry/publisher-provided"]. *)
Definition publisherProvided (entry : DockerCatalogEntry.t) : gmap string Any :=
  let metadata := DockerCatalogEntry.Metadata entry in
  let bag : gmap string Any :=
    <["resources" := AMap (DockerCatalogEntry.Resources entry)]>
    (<["upstream" := AString (DockerCatalogEntry.Upstream entry)]>
    (<["dateAdded" := AString (DockerCatalogEntry.DateAdded entry)]>
    (<["toolsUrl" := AString (DockerCatalogEntry.ToolsURL entry)]>
    (<["readme" := AString (DockerCatalogEntry.Readme entry)]>
    (<["title" := AString (DockerCatalogEntry.Title entry)]>
    (<["prompts" := AInt (DockerCatalogEntry.Prompts entry)]>
    (<["icon" := AString (DockerCatalogEntry.Icon entry)]>
    (<["source" := AString (DockerCatalogEntry.Source entry)]>
    (<["tools" := ATools (DockerCatalogEntry.Tools entry)]>
    (<["owner" := AString (Metadata.Owner metadata)]>
    (<["license" := AString (Metadata.License metadata)]>
    (<["tags" := AStrings (Metadata.Tags metadata)]>
    (<["category" := AString (Metadata.Category metadata)]>
    (<["githubStars" := AInt (Metadata.GitHubStars metadata)]>
    (<["pulls" := AInt (Metadata.Pulls metadata)]> ∅))))))))))))))) in
  if decide (0 < Metadata.Stars metadata)%Z
  then <["stars" := AInt (Metadata.Stars metadata)]> bag
  else bag.

(** The repository reference, present when the entry names an upstream. *)
Definition transformEntry_repository (entry : DockerCatalogEntry.t)
    : option Repository.t :=
  if decide (DockerCatalogEntry.Upstream entry ≠ "") then
    let repoURL := DockerCatalogEntry.Upstream entry in
    let sourceID :=
      if strings.Contains repoURL "github.com" then "github"
      else if strings.Contains repoURL "gitlab.com" then "gitlab"
      else "" in
    Some (Repository.mk repoURL sourceID "")
  else None.

Definition transformEntry (ord : MapOrder) (name : string)
    (entry : DockerCatalogEntry.t) : option RegistryServer.t :=
  description ←
    (if decide (100 < String.length (DockerCatalogEntry.Description entry))
     then head ← slice_to (DockerCatalogEntry.Description entry) 97;
          Some (head +:+ "...")
     else Some (DockerCatalogEntry.Description entry));
  let server packages remotes repository :=
    RegistryServer.mk
      "https://static.modelcontextprotocol.io/schemas/2025-10-17/server.schema.json"
      ("com.docker.mcp/" +:+ name) description "v0.1.0"
      packages remotes repository ""
      {[ "io.modelcontextprotocol.registry/publisher-provided" :=
           AMap (publisherProvided entry) ]} in
  let configMap := buildConfigMap ord (DockerCatalogEntry.Config entry) in
  match decide (DockerCatalogEntry.Type_ entry = "remote"),
        DockerCatalogEntry.Remote entry with
  | left _, Some remote =>
      let headers :=
        (λ kv : string * string,
           KeyValueInput.mk kv.1 kv.2 "" false false false ∅)
          <$> range_headers ord (Remote.Headers remote) in
      let transport :=
        Transport.mk (Remote.TransportType remote) (Remote.URL remote) headers in
      Some (server [] [transport] None)
  | _, _ =>
      envs ← mapM (transformEntry_env configMap) (DockerCatalogEntry.Env entry);
      let secrets := transformEntry_secret <$> DockerCatalogEntry.Secrets entry in
      packageArguments ←
        mapM (transformEntry_command configMap) (DockerCatalogEntry.Command entry);
      volumes ←
        mapM (transformEntry_runtime configMap "-v") (DockerCatalogEntry.Volumes entry);
      user ←
        (if decide (DockerCatalogEntry.User entry ≠ "")
         then arg ← transformEntry_runtime configMap "-u" (DockerCatalogEntry.User entry);
              Some [arg]
         else Some []);
      let runtimeArguments := volumes ++ user in
      let pkg :=
        Package.mk "oci" (Transport.mk "stdio" "" [])
          (if decide (DockerCatalogEntry.Image entry ≠ "")
           then DockerCatalogEntry.Image entry else "")
          ""
          (envs ++ secrets) packageArguments runtimeArguments
          (if decide (0 < length runtimeArguments) then "docker" else "") in
      Some (server [pkg] [] (transformEntry_repository entry))
  end.

(** ** The batch loop of [main] *)

(** The loop over the registry, through the entries in the order [range]
    yields them; [servers] is the slice built so far. *)
Fixpoint main_loop (ord : MapOrder)
    (entries : list (string * DockerCatalogEntry.t))
    (servers : list RegistryServer.t) : option (list RegistryServer.t) :=
  match entries with
  | [] => Some servers
  | (name, entry) :: entries =>
      if decide (DockerCatalogEntry.Type_ entry = "remote")
      then main_loop ord entries servers
      else
        server ← transformEntry ord name entry;
        main_loop ord entries (servers ++ [server])
  end.

(** The servers [main] serialises into the seed file. *)
Definition main_servers (ord : MapOrder) (catalog : DockerCatalog.t)
    : option (list RegistryServer.t) :=
  main_loop ord (range_registry ord (DockerCatalog.Registry catalog)) [].

(** ** Two iteration orders

    [sorted_order] ranges over every map in the order of [map_to_list];
    [reversed_order] in the opposite one. *)

Definition sorted_order : MapOrder :=
  {| range_registry := map_to_list;
     range_registry_perm := λ _, reflexivity _;
     range_properties := λ _, map_to_list;
     range_properties_perm := λ _ _, reflexivity _;
     range_headers := map_to_list;
     range_headers_perm := λ _, reflexivity _ |}.

Definition reversed_order : MapOrder :=
  {| range_registry := λ m, reverse (map_to_list m);
     range_registry_perm := λ m, reverse_Permutation (map_to_list m);
     range_properties := λ _ m, reverse (map_to_list m);
     range_properties_perm := λ _ m, reverse_Permutation (map_to_list m);
     range_headers := λ m, reverse (map_to_list m);
     range_headers_perm := λ m, reverse_Permutation (map_to_list m) |}.

(** ** Definitions used to state the properties *)

(** [s] holds no byte [a]. *)
Fixpoint str_avoids (a : Ascii.ascii) (s : string) : Prop :=
  match s with
  | "" => True
  | String c s' => c ≠ a ∧ str_avoids a s'
  end.

(** [s] does not begin with the byte [a]. *)
Definition str_starts_not (a : Ascii.ascii) (s : string) : Prop :=
  match s with
  | "" => True
  | String c _ => c ≠ a
  end.

(** [ReplaceAll(s, "aa", "a")] for a byte [a]: the two passes of
    [convertBraces] have this shape. *)
Definition collapse (a : Ascii.ascii) (s : string) : string :=
  strings.ReplaceAll s (String a (String a "")) (String a "").

(** The description [transformEntry] gives the server. *)
Definition truncated (description : string) : string :=
  if decide (100 < String.length description)
  then str_take 97 description +:+ "..."
  else description.

(** The part of the descriptor that both branches share. *)
Definition server_header (name : string) (entry : DockerCatalogEntry.t)
    (packages : list Package.t) (remotes : list Transport.t)
    (repository : option Repository.t) : RegistryServer.t :=
  RegistryServer.mk
    "https://static.modelcontextprotocol.io/schemas/2025-10-17/server.schema.json"
    ("com.docker.mcp/" +:+ name) (truncated (DockerCatalogEntry.Description entry))
    "v0.1.0" packages remotes repository ""
    {[ "io.modelcontextprotocol.registry/publisher-provided" :=
         AMap (publisherProvided entry) ]}.

(** The entry takes the remote branch of [transformEntry]. *)
Definition remote_branch (entry : DockerCatalogEntry.t) : Prop :=
  DockerCatalogEntry.Type_ entry = "remote" ∧ is_Some (DockerCatalogEntry.Remote entry).

(** An entry with the given description, type, secrets and remote
    descriptor, every other field at its zero value. *)
Definition sample_entry (description type_ : string) (secrets : list Secret.t)
    (remote : option Remote.t) : DockerCatalogEntry.t :=
  DockerCatalogEntry.mk description "" type_ "" "" "" "" "" "" "" "" [] 0 ∅
    (Metadata.mk 0 0 0 "" [] "" "") secrets [] [] [] [] remote "" false [] None.

(** The number of characters of a string in UTF-8, as
    [utf8.RuneCountInString] counts them in a valid one: a character begins
    at every byte that is not a continuation byte [10xxxxxx]. *)
Fixpoint rune_count (s : string) : nat :=
  match s with
  | "" => 0
  | String c s' =>
      (if bool_decide (128 ≤ nat_of_ascii c < 192) then 0 else 1) + rune_count s'
  end.

(** [n] copies of [s]. *)
Fixpoint str_repeat (n : nat) (s : string) : string :=
  match n with
  | 0 => ""
  | S n => s +:+ str_repeat n s
  end.

(** The euro sign in UTF-8: the three bytes [E2 82 AC]. *)
Definition euro : string := String "226" (String "130" (String "172" "")).

(** A description of 34 characters in 102 bytes. *)
Definition euro_description : string := str_repeat 34 euro.

(** A description of more than 100 bytes. *)
Definition long_description : string :=
  "Connects an assistant to the issue tracker of a project, with tools to search, read, create and update issues.".

(** A remote entry whose descriptor carries two headers. *)
Definition two_header_entry : DockerCatalogEntry.t :=
  sample_entry "" "remote" []
    (Some (Remote.mk "sse" "https://mcp.example.com/sse"
             (<["Authorization" := "Bearer {token}"]> (<["X-Api-Version" := "2"]> ∅)))).

(** A catalog with one local entry and one remote entry. *)
Definition sample_catalog : DockerCatalog.t :=
  DockerCatalog.mk "docker-mcp" "Docker MCP Catalog"
    (<["svc" := sample_entry "" "server" [] None]> (<["r" := two_header_entry]> ∅)).

(** How a run of the loop with a bounded number of passes ends. *)
Inductive loop_run :=
| OutOfFuel
| Panicked
| Returned (variables : gmap string InputSchema.t).

(** The loop of [extractVars], given [fuel] passes through its body. *)
Fixpoint extractVars_fuel (fuel : nat) (value : string)
    (configMap : gmap string (gmap string Any))
    (start : nat) (variables : gmap string InputSchema.t) : loop_run :=
  match fuel with
  | 0 => OutOfFuel
  | S fuel =>
      match extractVars_body value configMap start variables with
      | None => Panicked
      | Some Break => Returned variables
      | Some (Continue start' variables') =>
          extractVars_fuel fuel value configMap start' variables'
      end
  end.

(** ** Definitions used to state further properties *)

(** The schema the body of the loop of [extractVars] gives the variable
    [varName]. *)
Definition extractVars_schema (configMap : gmap string (gmap string Any))
    (varName : string) : InputSchema.t :=
  match configMap !! varName with
  | Some configProp =>
      match configProp !! "description" with
      | Some (AString desc) => InputSchema.mk false false "string" desc
      | _ => InputSchema.mk false false "string" ""
      end
  | None => InputSchema.mk false false "string" ""
  end.

(** [entry] with the fields that only the package branch of
    [transformEntry] reads replaced. *)
Definition with_package_fields (entry : DockerCatalogEntry.t) (image : string)
    (secrets : list Secret.t) (env : list EnvVar.t) (command volumes : list string)
    (config : list Config.t) (user : string) : DockerCatalogEntry.t :=
  DockerCatalogEntry.mk
    (DockerCatalogEntry.Description entry) (DockerCatalogEntry.Title entry)
    (DockerCatalogEntry.Type_ entry) (DockerCatalogEntry.DateAdded entry)
    image (DockerCatalogEntry.Ref entry) (DockerCatalogEntry.Readme entry)
    (DockerCatalogEntry.ToolsURL entry) (DockerCatalogEntry.Source entry)
    (DockerCatalogEntry.Upstream entry) (DockerCatalogEntry.Icon entry)
    (DockerCatalogEntry.Tools entry) (DockerCatalogEntry.Prompts entry)
    (DockerCatalogEntry.Resources entry) (DockerCatalogEntry.Metadata entry)
    secrets env command volumes config (DockerCatalogEntry.Remote entry) user
    (DockerCatalogEntry.LongLived entry) (DockerCatalogEntry.AllowHosts entry)
    (DockerCatalogEntry.OAuth entry).

(** ** The HTTP server ([internal/api/server.go])

    What the middleware reads and writes of [net/http] and [net/url]: a
    request is its method, URL and header; a response writer is the header
    map it hands out and the status [WriteHeader] has sent, if any.  A
    handler takes the response writer and the request and returns the
    response writer as it leaves it, or [None] when it panics.  The
    pointers [cfg] and [r.URL] are never nil where the server uses them, and
    the configuration is not written to once the server is built: both are
    plain values here. *)

Module slices.

(** [slices.Index(s, v)] *)
Fixpoint Index (s : list string) (v : string) : option nat :=
  match s with
  | [] => None
  | x :: s' => if String.eqb v x then Some 0 else S <$> Index s' v
  end.

(** [slices.Contains(s, v)] is [Index(s, v) >= 0]. *)
Definition Contains (s : list string) (v : string) : bool :=
  match Index s v with Some _ => true | None => false end.

End slices.

Module url.

(** [url.URL]; [User] is the optional user name with its optional password. *)
Record URL := mkURL {
  Scheme : string;
  Opaque : string;
  User : option (string * option string);
  Host : string;
  Path : string;
  RawPath : string;
  OmitHost : bool;
  ForceQuery : bool;
  RawQuery : string;
  Fragment : string;
  RawFragment : string }.

(** A copy of [u] whose [Path] is then assigned [path]. *)
Definition set_Path (u : URL) (path : string) : URL :=
  mkURL (Scheme u) (Opaque u) (User u) (Host u) path (RawPath u) (OmitHost u)
    (ForceQuery u) (RawQuery u) (Fragment u) (RawFragment u).

End url.

Module http.

(** [textproto.validHeaderFieldByte]: the bytes of an HTTP token. *)
Definition validHeaderFieldByte (c : ascii) : bool :=
  let n := nat_of_ascii c in
  (bool_decide (48 ≤ n ≤ 57) || bool_decide (65 ≤ n ≤ 90) || bool_decide (97 ≤ n ≤ 122)
   || bool_decide (n ∈ [33; 35; 36; 37; 38; 39; 42; 43; 45; 46; 94; 95; 96; 124; 126])).

(** The loop of [textproto.canonicalMIMEHeaderKey]: [upper] says that the
    next letter is to be upper case. *)
Fixpoint canonical_scan (upper : bool) (s : string) : string :=
  match s with
  | "" => ""
  | String c s' =>
      let n := nat_of_ascii c in
      let c' :=
        if upper && bool_decide (97 ≤ n ≤ 122) then ascii_of_nat (n - 32)
        else if negb upper && bool_decide (65 ≤ n ≤ 90) then ascii_of_nat (n + 32)
        else c in
      String c' (canonical_scan (bool_decide (c' = "-"%char)) s')
  end.

(** [textproto.CanonicalMIMEHeaderKey]: a key with a byte that is not a
    token byte is returned as it is. *)
Definition CanonicalMIMEHeaderKey (s : string) : string :=
  if forallb validHeaderFieldByte (String.list_ascii_of_string s)
  then canonical_scan true s
  else s.

(** [http.Header.Get(key)]: the first value under the canonical key. *)
Definition Header_Get (h : gmap string (list string)) (key : string) : string :=
  match h !! CanonicalMIMEHeaderKey key with
  | Some (v :: _) => v
  | _ => ""
  end.

(** [http.Header.Set(key, value)] *)
Definition Header_Set (h : gmap string (list string)) (key value : string)
    : gmap string (list string) :=
  <[CanonicalMIMEHeaderKey key := [value]]> h.

Record Request := mkRequest {
  Method : string;
  URL : url.URL;
  Header : gmap string (list string) }.

Record ResponseWriter := mkResponseWriter {
  ResponseHeader : gmap string (list string);
  Status : option Z }.

(** [w.WriteHeader(statusCode)]: only the first call sends a status. *)
Definition WriteHeader (w : ResponseWriter) (statusCode : Z) : ResponseWriter :=
  match Status w with
  | Some _ => w
  | None => mkResponseWriter (ResponseHeader w) (Some statusCode)
  end.

Definition StatusOK : Z := 200.
Definition StatusPermanentRedirect : Z := 308.

(** [http.Handler], as the function [ServeHTTP]. *)
Definition Handler : Type := ResponseWriter → Request → option ResponseWriter.

End http.

Module config.

(** The fields of [config.Config] that the server reads. *)
Record Config := mkConfig {
  ServerAddress : string;
  AllowedOrigins : string;
  AllowedOriginsGlob : string }.

End config.

Module api.

Section middleware.

(** Library calls whose result the middleware only passes on. *)
Variable URL_String : url.URL → string.
Variable Redirect : http.ResponseWriter → http.Request → string → Z → http.ResponseWriter.
(** [glob.Compile(pattern)]: the matcher, or [None] for the error that makes
    [glob.MustCompile] panic. *)
Variable glob_Compile : string → option (string → bool).

(** The four [w.Header().Set] calls for an allowed origin. *)
Definition set_cors_headers (w : http.ResponseWriter) (origin : string)
    : http.ResponseWriter :=
  let header := http.ResponseHeader w in
  let header := http.Header_Set header "Access-Control-Allow-Origin" origin in
  let header :=
    http.Header_Set header "Access-Control-Allow-Methods"
      "GET, POST, PUT, DELETE, OPTIONS" in
  let header :=
    http.Header_Set header "Access-Control-Allow-Headers"
      "Content-Type, X-Requested-With" in
  let header := http.Header_Set header "Access-Control-Max-Age" "86400" in
  http.mkResponseWriter header (http.Status w).

(** [CORSMiddleware] of [internal/api/server.go].  [g] is the compiled
    glob, [None] while the variable is nil; calling [Match] on it then
    panics. *)
Definition CORSMiddleware (cfg : config.Config) (next : http.Handler)
    : option http.Handler :=
  g ← (if decide (config.AllowedOriginsGlob cfg ≠ "")
       then Some <$> glob_Compile (config.AllowedOriginsGlob cfg)
       else Some None);
  Some (λ w r,
    let origin := http.Header_Get (http.Header r) "Origin" in
    w ← (if decide (config.AllowedOriginsGlob cfg ≠ "")
         then matched ← g ≫= (λ g, Some (g origin));
              Some (if matched : bool then set_cors_headers w origin else w)
         else Some w);
    if decide (http.Method r = "OPTIONS")
    then Some (http.WriteHeader w http.StatusOK)
    else next w r).

(** [CORSMiddleware] of the revision that lists the allowed origins. *)
Definition CORSMiddleware_origins (cfg : config.Config) (next : http.Handler)
    : http.Handler :=
  let allowedOrigins := strings.Split (config.AllowedOrigins cfg) "," in
  λ w r,
    let origin := http.Header_Get (http.Header r) "Origin" in
    let w :=
      if slices.Contains allowedOrigins origin then set_cors_headers w origin else w in
    if decide (http.Method r = "OPTIONS")
    then Some (http.WriteHeader w http.StatusOK)
    else next w r.

Definition TrailingSlashMiddleware (next : http.Handler) : http.Handler :=
  λ w r,
    let path := url.Path (http.URL r) in
    if bool_decide (path ≠ "/") && strings.HasSuffix path "/" then
      let newURL := url.set_Path (http.URL r) (strings.TrimSuffix path "/") in
      Some (Redirect w r (URL_String newURL) http.StatusPermanentRedirect)
    else next w r.

(** The part of [Server] that [NewServer] fills from its own code. *)
Record Server := mkServer {
  Addr : string;
  Handler : http.Handler;
  ReadHeaderTimeout : Z }.

(** [NewServer]; [mux] is the multiplexer once the routes are registered on
    it, and the timeout is in nanoseconds. *)
Definition NewServer (cfg : config.Config) (mux : http.Handler) : option Server :=
  cors ← CORSMiddleware cfg mux;
  let handler := TrailingSlashMiddleware cors in
  Some (mkServer (config.ServerAddress cfg) handler (10 * 1000000000)).

(** [NewServer] of the revision that lists the allowed origins. *)
Definition NewServer_origins (cfg : config.Config) (mux : http.Handler) : Server :=
  let handler := TrailingSlashMiddleware (CORSMiddleware_origins cfg mux) in
  mkServer (config.ServerAddress cfg) handler (10 * 1000000000).

End middleware.

End api.

(** ** Definitions used to state the properties of the server *)

(** The keys of the headers that [CORSMiddleware] sets. *)
Definition cors_keys : list string :=
  [ "Access-Control-Allow-Origin"; "Access-Control-Allow-Methods";
    "Access-Control-Allow-Headers"; "Access-Control-Max-Age" ].

(** A request with the given method, path and [Origin] header. *)
Definition sample_request (method path origin : string) : http.Request :=
  http.mkRequest method
    (url.mkURL "" "" None "" path "" false false "" "" "")
    {[ "Origin" := [origin] ]}.

(** A response writer nothing has been written to. *)
Definition fresh_writer : http.ResponseWriter := http.mkResponseWriter ∅ None.

(** A stand-in for [URL.String]: the path and the query. *)
Definition sample_URL_String (u : url.URL) : string :=
  if decide (url.RawQuery u = "") then url.Path u
  else url.Path u +:+ "?" +:+ url.RawQuery u.

(** A stand-in for [http.Redirect]: the [Location] header and the status. *)
Definition sample_Redirect (w : http.ResponseWriter) (r : http.Request)
    (target : string) (code : Z) : http.ResponseWriter :=
  http.WriteHeader
    (http.mkResponseWriter (http.Header_Set (http.ResponseHeader w) "Location" target)
       (http.Status w))
    code.

(** A stand-in for [glob.Compile]: a pattern is a prefix followed by [*];
    any other pattern does not compile. *)
Definition sample_glob_Compile (pattern : string) : option (string → bool) :=
  if strings.HasSuffix pattern "*"
  then Some (λ s, strings.HasPrefix s (strings.TrimSuffix pattern "*"))
  else None.

(** A wrapped handler that answers 204. *)
Definition sample_mux : http.Handler := λ w _, Some (http.WriteHeader w 204).

(** * Examples *)

Example Index_found : strings.Index "a{{b}}" "{{" = Some 1.
Proof. reflexivity. Qed.

Example Index_absent : strings.Index "a{b}" "{{" = None.
Proof. reflexivity. Qed.

Example ReplaceAll_odd_run : strings.ReplaceAll "{{{x" "{{" "{" = "{{x".
Proof. reflexivity. Qed.

Example Split_pipe : strings.Split "y|secret|z" "|" = ["y"; "secret"; "z"].
Proof. reflexivity. Qed.

Example SplitN_two : strings.SplitN "--a=b=c" "=" 2 = ["--a"; "b=c"].
Proof. reflexivity. Qed.

Example slice_panics : slice "abc" 2 4 = None ∧ slice "abc" 1 3 = Some "bc".
Proof. split; reflexivity. Qed.

Example command_named :
  transformEntry_command ∅ "--port=8080"
  = Some (Argument.mk "named" "--port" "8080" false false false ∅).
Proof. reflexivity. Qed.

Example command_positional :
  transformEntry_command ∅ "serve"
  = Some (Argument.mk "positional" "" "serve" false false false ∅).
Proof. reflexivity. Qed.

Example repository_github :
  transformEntry_repository
    (DockerCatalogEntry.mk "" "" "" "" "" "" "" "" "" "https://github.com/acme/tool" ""
       [] 0 ∅ (Metadata.mk 0 0 0 "" [] "" "") [] [] [] [] [] None "" false [] None)
  = Some (Repository.mk "https://github.com/acme/tool" "github" "").
Proof. reflexivity. Qed.

Example repository_elsewhere :
  transformEntry_repository
    (DockerCatalogEntry.mk "" "" "" "" "" "" "" "" "" "https://example.com/acme/tool" ""
       [] 0 ∅ (Metadata.mk 0 0 0 "" [] "" "") [] [] [] [] [] None "" false [] None)
  = Some (Repository.mk "https://example.com/acme/tool" "" "").
Proof. reflexivity. Qed.

(** * Facts about strings *)

Section string_facts.
Implicit Types s t u p sub : string.

Lemma str_app_assoc s t u : (s +:+ t) +:+ u = s +:+ (t +:+ u).
Proof. induction s; simpl; congruence. Qed.

Lemma str_app_nil_r s : s +:+ "" = s.
Proof. induction s; simpl; congruence. Qed.

Lemma str_app_length s t : String.length (s +:+ t) = String.length s + String.length t.
Proof. induction s; simpl; congruence. Qed.

Lemma str_take_drop n s : str_take n s +:+ str_drop n s = s.
Proof. revert s; induction n; intros [|c s]; simpl; try done. by rewrite IHn. Qed.

Lemma str_take_length n s : n ≤ String.length s → String.length (str_take n s) = n.
Proof. revert s; induction n; intros [|c s]; simpl; try lia. intros. rewrite IHn; lia. Qed.

Lemma str_drop_drop n m s : str_drop n (str_drop m s) = str_drop (m + n) s.
Proof. revert s; induction m; intros [|c s]; simpl; try done. by destruct n. Qed.

Lemma str_drop_app_length s t : str_drop (String.length s) (s +:+ t) = t.
Proof. induction s; simpl; auto. Qed.

Lemma str_take_app_length s t : str_take (String.length s) (s +:+ t) = s.
Proof. induction s; simpl; [by destruct t|congruence]. Qed.

Lemma str_drop_app_le n s t :
  n ≤ String.length s → str_drop n (s +:+ t) = str_drop n s +:+ t.
Proof.
  revert s; induction n as [|n IH]; intros [|c s]; simpl; try done; try lia.
  intros. apply IH. lia.
Qed.

Lemma str_take_app_le n s t :
  n ≤ String.length s → str_take n (s +:+ t) = str_take n s.
Proof.
  revert s; induction n as [|n IH]; intros [|c s]; simpl; try done; try lia.
  all: try by destruct t.
  intros. f_equal. apply IH. lia.
Qed.

Lemma str_drop_ge n s : String.length s ≤ n → str_drop n s = "".
Proof.
  revert s; induction n as [|n IH]; intros [|c s]; simpl; try done; try lia.
  intros. apply IH. lia.
Qed.

Lemma prefix_app p t : String.prefix p (p +:+ t) = true.
Proof. induction p; simpl; [by destruct t|]. by destruct (Ascii.ascii_dec _ _). Qed.

Lemma prefix_inv p s : String.prefix p s = true → ∃ t, s = p +:+ t.
Proof.
  revert s; induction p as [|a p IH]; intros [|c s]; simpl; try done; eauto.
  destruct (Ascii.ascii_dec a c) as [->|]; [|done].
  intros [t ->]%IH. by exists t.
Qed.

Lemma slice_from_le s lo : lo ≤ String.length s → slice_from s lo = Some (str_drop lo s).
Proof.
  intros. unfold slice_from, slice. rewrite decide_True by lia.
  rewrite <-(str_drop_length lo s). by rewrite str_take_all.
Qed.

Lemma slice_le s lo hi :
  lo ≤ hi → hi ≤ String.length s →
  slice s lo hi = Some (str_take (hi - lo) (str_drop lo s)).
Proof. intros. unfold slice. by rewrite decide_True by lia. Qed.

(** ** [Index] is the first position where [substr] starts *)

Lemma Index_Some_prefix s sub i :
  strings.Index s sub = Some i → String.prefix sub (str_drop i s) = true.
Proof.
  revert i; induction s as [|c s IH]; intros i; rewrite Index_unfold.
  - destruct (String.prefix sub "") eqn:Hp; [|done]. by intros [= <-].
  - destruct (String.prefix sub (String c s)) eqn:Hp; [by intros [= <-]|].
    destruct (strings.Index s sub) as [j|]; [|done]. intros [= <-]. by apply IH.
Qed.

Lemma Index_Some_first s sub i j :
  strings.Index s sub = Some i → j < i → String.prefix sub (str_drop j s) = false.
Proof.
  revert i j; induction s as [|c s IH]; intros i j; rewrite Index_unfold.
  - destruct (String.prefix sub "") eqn:Hp; [|done]. intros [= <-]. lia.
  - destruct (String.prefix sub (String c s)) eqn:Hp; [intros [= <-]; lia|].
    destruct (strings.Index s sub) as [k|] eqn:Hk; [|done]. intros [= <-] ?.
    destruct j as [|j]; [done|]. simpl. apply (IH k); [done|lia].
Qed.

Lemma Index_None_prefix s sub j :
  strings.Index s sub = None → String.prefix sub (str_drop j s) = false.
Proof.
  revert j; induction s as [|c s IH]; intros j; rewrite Index_unfold.
  - destruct (String.prefix sub "") eqn:Hp; [done|]. by destruct j.
  - destruct (String.prefix sub (String c s)) eqn:Hp; [done|].
    destruct (strings.Index s sub) as [k|] eqn:Hk; [done|]. intros _.
    destruct j as [|j]; [done|]. by apply IH.
Qed.

Lemma Index_intro s sub i :
  i ≤ String.length s →
  String.prefix sub (str_drop i s) = true →
  (∀ j, j < i → String.prefix sub (str_drop j s) = false) →
  strings.Index s sub = Some i.
Proof.
  revert i; induction s as [|c s IH]; intros i Hi Hp Hfirst; rewrite Index_unfold.
  - destruct i; [|simpl in Hi; lia]. cbn [str_drop] in Hp. by rewrite Hp.
  - destruct i as [|i]; [cbn [str_drop] in Hp; by rewrite Hp|].
    pose proof (Hfirst 0 ltac:(lia)) as H0. cbn [str_drop] in H0. rewrite H0.
    rewrite (IH i); [done|simpl in Hi; lia|done|].
    intros j ?. apply (Hfirst (S j)). lia.
Qed.

Lemma Index_None_intro s sub :
  (∀ j, j ≤ String.length s → String.prefix sub (str_drop j s) = false) →
  strings.Index s sub = None.
Proof.
  induction s as [|c s IH]; intros H; rewrite Index_unfold.
  - pose proof (H 0 ltac:(lia)) as H0. cbn [str_drop] in H0. by rewrite H0.
  - pose proof (H 0 ltac:(lia)) as H0. cbn [str_drop] in H0. rewrite H0.
    rewrite IH; [done|].
    intros j ?. apply (H (S j)). simpl. lia.
Qed.

Lemma Index_is_Some s sub i :
  i ≤ String.length s → String.prefix sub (str_drop i s) = true →
  is_Some (strings.Index s sub).
Proof.
  intros Hi Hp. destruct (strings.Index s sub) eqn:H; [done|].
  by rewrite (Index_None_prefix _ _ i H) in Hp.
Qed.

Lemma Contains_app pre sub post : strings.Contains (pre +:+ sub +:+ post) sub = true.
Proof.
  unfold strings.Contains.
  destruct (Index_is_Some (pre +:+ sub +:+ post) sub (String.length pre)) as [i ->]; [| |done].
  - rewrite str_app_length. lia.
  - rewrite str_drop_app_length. apply prefix_app.
Qed.

Lemma Contains_inv s sub :
  strings.Contains s sub = true → ∃ pre post, s = pre +:+ sub +:+ post.
Proof.
  unfold strings.Contains. destruct (strings.Index s sub) as [i|] eqn:Hi; [|done].
  intros _. apply Index_Some_prefix, prefix_inv in Hi as [post Hpost].
  exists (str_take i s), post. by rewrite <-Hpost, str_take_drop.
Qed.

End string_facts.

(** * The scanning loop of [extractVars] *)

Lemma extractVars_loop_eq value configMap start variables :
  extractVars_loop value configMap start variables =
  match extractVars_body value configMap start variables with
  | None => None
  | Some Break => Some variables
  | Some (Continue start' variables') =>
      extractVars_loop value configMap start' variables'
  end.
Proof.
  funelim (extractVars_loop value configMap start variables).
  all: match goal with H : extractVars_body _ _ _ _ = _ |- _ => by rewrite H end.
Qed.

(** Induction along the iterations of the loop. *)
Lemma extractVars_loop_iter_ind value configMap
    (P : nat → gmap string InputSchema.t → Prop) :
  (∀ start variables,
     (∀ start' variables',
        extractVars_body value configMap start variables
          = Some (Continue start' variables') →
        P start' variables') →
     P start variables) →
  ∀ start variables, P start variables.
Proof.
  intros Hstep start.
  remember (String.length value - start) as n eqn:Hn. revert start Hn.
  induction n as [n IH] using lt_wf_ind. intros start -> variables.
  apply Hstep. intros start' variables' Hbody.
  apply extractVars_body_progress in Hbody as Hprog.
  apply (IH (String.length value - start')); [lia|done].
Qed.

Lemma Index_close_after_open t j :
  String.prefix "{{" t = true → strings.Index t "}}" = Some j → 2 ≤ j.
Proof.
  intros [u ->]%prefix_inv. rewrite Index_unfold. simpl.
  destruct (strings.Index u "}}") as [k|]; simpl; [|done].
  intros [= <-]. lia.
Qed.

Lemma genSplit_head n s sep : is_Some (strings.genSplit n s sep !! 0).
Proof. destruct n; simpl; [done|]. by destruct (strings.Index s sep). Qed.

Lemma Split_head_cases s sep name :
  strings.Split s sep !! 0 = Some name →
  name = s ∨ ∃ rest, s = name +:+ sep +:+ rest.
Proof.
  unfold strings.Split. destruct (String.length s) as [|n]; simpl.
  { intros [= <-]. by left. }
  destruct (strings.Index s sep) as [m|] eqn:Hm; simpl; intros [= <-]; [|by left].
  right. apply Index_Some_prefix, prefix_inv in Hm as [rest Hrest].
  exists rest. by rewrite <-Hrest, str_take_drop.
Qed.

(** What an iteration that reaches the end of the body has seen: a [{{] at
    [idx], the first [}}] after it at [endIdx], the name between them. *)
Lemma extractVars_body_Continue value configMap start variables start' variables' :
  extractVars_body value configMap start variables = Some (Continue start' variables') →
  ∃ idx endIdx varName schema,
    start ≤ idx ∧ idx + 2 ≤ endIdx ∧ endIdx + 2 ≤ String.length value ∧
    strings.Index (str_drop start value) "{{" = Some (idx - start) ∧
    strings.Index (str_drop idx value) "}}" = Some (endIdx - idx) ∧
    strings.Split (str_take (endIdx - (idx + 2)) (str_drop (idx + 2) value)) "|" !! 0
      = Some varName ∧
    start' = endIdx + 2 ∧
    variables' = <[varName := schema]> variables.
Proof.
  unfold extractVars_body.
  destruct (slice_from value start) as [tail|] eqn:Ht; [simpl|done].
  apply slice_from_Some in Ht as [Hstart ->].
  destruct (strings.Index _ "{{") as [i|] eqn:Hi; [|done].
  destruct (slice_from value (i + start)) as [tail|] eqn:Ht; [simpl|done].
  apply slice_from_Some in Ht as [Hidx ->].
  destruct (strings.Index _ "}}") as [j|] eqn:Hj; [|done].
  destruct (slice value _ _) as [varContent|] eqn:Hc; [simpl|done].
  destruct (_ !! 0) as [varName|] eqn:Hn; [simpl|done].
  intros [= <- <-].
  unfold slice in Hc. case_decide as Hb; [|done]. injection Hc as <-.
  apply Index_bound in Hj as Hjb. rewrite str_drop_length in Hjb. simpl in Hjb.
  eexists (i + start), (j + (i + start)), varName, _.
  replace (i + start - start) with i by lia.
  replace (j + (i + start) - (i + start)) with j by lia.
  repeat split; try done; lia.
Qed.

(** The body never panics from a scan position inside the string. *)
Lemma extractVars_body_no_panic value configMap start variables :
  start ≤ String.length value →
  is_Some (extractVars_body value configMap start variables).
Proof.
  intros Hstart. unfold extractVars_body.
  rewrite slice_from_le by done. simpl.
  destruct (strings.Index _ "{{") as [i|] eqn:Hi; [|done].
  apply Index_bound in Hi as Hib. rewrite str_drop_length in Hib. simpl in Hib.
  rewrite slice_from_le by lia. simpl.
  destruct (strings.Index _ "}}") as [j|] eqn:Hj; [|done].
  apply Index_bound in Hj as Hjb. rewrite str_drop_length in Hjb. simpl in Hjb.
  apply Index_Some_prefix in Hi. rewrite str_drop_drop in Hi.
  replace (start + i) with (i + start) in Hi by lia.
  pose proof (Index_close_after_open _ _ Hi Hj).
  rewrite slice_le by lia. simpl.
  destruct (genSplit_head (String.length (str_take (j + (i + start) - (i + start + 2))
              (str_drop (i + start + 2) value)))
              (str_take (j + (i + start) - (i + start + 2))
              (str_drop (i + start + 2) value)) "|") as [varName Hn].
  unfold strings.Split. rewrite Hn. done.
Qed.

Lemma extractVars_loop_no_panic value configMap start variables :
  start ≤ String.length value →
  is_Some (extractVars_loop value configMap start variables).
Proof.
  revert start variables.
  apply (extractVars_loop_iter_ind value configMap
           (λ start variables, start ≤ String.length value →
              is_Some (extractVars_loop value configMap start variables))).
  intros start variables IH Hstart. rewrite extractVars_loop_eq.
  destruct (extractVars_body_no_panic value configMap start variables Hstart)
    as [[|start' variables'] Hbody]; rewrite Hbody; [done|].
  apply IH; [done|]. by apply extractVars_body_progress in Hbody as [_ ?].
Qed.

Lemma extractVars_no_panic value configMap : is_Some (extractVars value configMap).
Proof. apply extractVars_loop_no_panic. lia. Qed.

(** A property of the variables that every iteration preserves holds of the
    result. *)
Lemma extractVars_loop_invariant value configMap
    (P : gmap string InputSchema.t → Prop) :
  (∀ start variables start' variables',
     P variables →
     extractVars_body value configMap start variables
       = Some (Continue start' variables') →
     P variables') →
  ∀ start variables result,
    P variables →
    extractVars_loop value configMap start variables = Some result →
    P result.
Proof.
  intros Hstep start variables result. revert start variables.
  apply (extractVars_loop_iter_ind value configMap
           (λ start variables, P variables →
              extractVars_loop value configMap start variables = Some result →
              P result)).
  intros start variables IH HP. rewrite extractVars_loop_eq.
  destruct (extractVars_body value configMap start variables)
    as [[|start' variables']|] eqn:Hbody; [by intros [= <-]| |done].
  apply IH; eauto.
Qed.

(** * [ReplaceAll] *)

Lemma prefix_nil s : String.prefix "" s = true.
Proof. by destruct s. Qed.

Lemma ReplaceAll_absent s old new :
  strings.Contains s old = false → strings.ReplaceAll s old new = s.
Proof.
  unfold strings.Contains, strings.ReplaceAll.
  induction s as [|c s IH]; [done|]. rewrite Index_unfold.
  cbn [strings.replace_scan].
  destruct (String.prefix old (String c s)); [done|].
  destruct (strings.Index s old); simpl; [done|]. intros _. by rewrite IH.
Qed.

Lemma Contains_byte_false a s :
  strings.Contains s (String a "") = false → str_avoids a s.
Proof.
  unfold strings.Contains. induction s as [|c s IH]; [done|].
  rewrite Index_unfold. simpl. destruct (Ascii.ascii_dec a c) as [->|Hne].
  - by rewrite prefix_nil.
  - destruct (strings.Index s _); simpl; [done|]. intros _. split; [congruence|auto].
Qed.

Lemma str_avoids_app a s t : str_avoids a s → str_avoids a t → str_avoids a (s +:+ t).
Proof. induction s; simpl; [done|]. intros [??] ?. auto. Qed.

Lemma str_avoids_starts_not a s t :
  str_avoids a s → str_starts_not a t → str_starts_not a (s +:+ t).
Proof. destruct s; simpl; [done|]. by intros [??]. Qed.

Lemma replace_scan_skip old new k s :
  strings.replace_scan old new k s = strings.replace_scan old new 0 (str_drop k s).
Proof.
  revert s; induction k as [|k IH]; intros [|c s]; simpl; done.
Qed.

(** [ReplaceAll] replaces the first occurrence and goes on behind it: the
    occurrences replaced are the leftmost ones that do not overlap. *)
Lemma ReplaceAll_Index s old new :
  old ≠ "" →
  strings.ReplaceAll s old new =
  match strings.Index s old with
  | None => s
  | Some j =>
      str_take j s +:+ new
        +:+ strings.ReplaceAll (str_drop (j + String.length old) s) old new
  end.
Proof.
  intros Hold. unfold strings.ReplaceAll. induction s as [|c s IH].
  - rewrite Index_unfold. by destruct old.
  - rewrite Index_unfold. cbn [strings.replace_scan].
    destruct (String.prefix old (String c s)) eqn:Hp.
    + rewrite replace_scan_skip. destruct old as [|a old]; [done|]. simpl.
      by rewrite Nat.sub_0_r.
    + rewrite IH. by destruct (strings.Index s old).
Qed.

(** ** Collapsing a doubled byte: [ReplaceAll(s, "aa", "a")] *)

Section collapse.
Variable a : Ascii.ascii.

Lemma collapse_cons_cons c d s :
  collapse a (String c (String d s)) =
  if decide (c = a ∧ d = a) then String a (collapse a s)
  else String c (collapse a (String d s)).
Proof.
  unfold collapse, strings.ReplaceAll. simpl.
  destruct (Ascii.ascii_dec a c) as [<-|]; [|by rewrite decide_False by (intros [??]; congruence)].
  destruct (Ascii.ascii_dec a d) as [<-|]; [|by rewrite decide_False by (intros [??]; congruence)].
  by rewrite prefix_nil, decide_True.
Qed.

Lemma collapse_single c : collapse a (String c "") = String c "".
Proof.
  unfold collapse, strings.ReplaceAll. simpl.
  by destruct (Ascii.ascii_dec a c).
Qed.

Lemma collapse_cons_ne c s : c ≠ a → collapse a (String c s) = String c (collapse a s).
Proof.
  intros. destruct s as [|d s]; [by rewrite collapse_single|].
  rewrite collapse_cons_cons. by rewrite decide_False by (intros [??]; congruence).
Qed.

Lemma collapse_cons_starts_not c t :
  str_starts_not a t → collapse a (String c t) = String c (collapse a t).
Proof.
  destruct t as [|d t]; simpl; [intros _; by rewrite collapse_single|].
  intros. rewrite collapse_cons_cons. by rewrite decide_False by (intros [??]; congruence).
Qed.

Lemma collapse_avoids_app u s :
  str_avoids a u → collapse a (u +:+ s) = u +:+ collapse a s.
Proof.
  induction u as [|c u IH]; simpl; [done|]. intros [??].
  by rewrite collapse_cons_ne, IH.
Qed.

(** A doubled [a] followed by something else leaves one [a]. *)
Lemma collapse_before_pair pre t :
  str_starts_not a t →
  ∃ pre', collapse a (pre +:+ String a (String a t)) = pre' +:+ String a (collapse a t).
Proof.
  intros Ht. remember (String.length pre) as n eqn:Hn. revert pre Hn.
  induction n as [n IH] using lt_wf_ind. intros [|c [|d pre]] ->; simpl.
  - exists "". rewrite collapse_cons_cons. by rewrite decide_True.
  - rewrite collapse_cons_cons. case_decide as Hc.
    + exists (String a ""). simpl. by rewrite collapse_cons_starts_not.
    + exists (String c ""). simpl. f_equal.
      rewrite collapse_cons_cons. by rewrite decide_True.
  - rewrite collapse_cons_cons. case_decide as Hc.
    + destruct (IH (String.length pre) ltac:(simpl; lia) pre eq_refl) as [pre' ->].
      by exists (String a pre').
    + destruct (IH (String.length (String d pre)) ltac:(simpl; lia) (String d pre) eq_refl)
        as [pre' Hpre]. simpl in Hpre. rewrite Hpre.
      by exists (String c pre').
Qed.

(** Whatever precedes a part that does not begin with [a] is collapsed on
    its own. *)
Lemma collapse_before_other pre t :
  str_starts_not a t → ∃ pre', collapse a (pre +:+ t) = pre' +:+ collapse a t.
Proof.
  intros Ht. remember (String.length pre) as n eqn:Hn. revert pre Hn.
  induction n as [n IH] using lt_wf_ind. intros [|c [|d pre]] ->; simpl.
  - by exists "".
  - exists (String c ""). simpl. by apply collapse_cons_starts_not.
  - rewrite collapse_cons_cons. case_decide as Hc.
    + destruct (IH (String.length pre) ltac:(simpl; lia) pre eq_refl) as [pre' ->].
      by exists (String a pre').
    + destruct (IH (String.length (String d pre)) ltac:(simpl; lia) (String d pre) eq_refl)
        as [pre' Hpre]. simpl in Hpre. rewrite Hpre.
      by exists (String c pre').
Qed.

(** A doubled [a] followed by something else leaves one [a]; what stands
    before it and what stands behind it are collapsed on their own. *)
Lemma collapse_pair_app pre t :
  str_starts_not a t →
  collapse a (pre +:+ String a (String a t))
  = collapse a pre +:+ String a (collapse a t).
Proof.
  intros Ht. remember (String.length pre) as n eqn:Hn. revert pre Hn.
  induction n as [n IH] using lt_wf_ind. intros [|c [|d pre]] ->; simpl.
  - rewrite collapse_cons_cons. by rewrite decide_True.
  - rewrite collapse_single, collapse_cons_cons. case_decide as Hc.
    + destruct Hc as [-> _]. simpl. by rewrite collapse_cons_starts_not.
    + simpl. f_equal. rewrite collapse_cons_cons. by rewrite decide_True.
  - rewrite !collapse_cons_cons. case_decide as Hc.
    + rewrite (IH (String.length pre) ltac:(simpl; lia) pre eq_refl). done.
    + pose proof (IH (String.length (String d pre)) ltac:(simpl; lia) (String d pre) eq_refl)
        as Hpre. simpl in Hpre. rewrite Hpre. done.
Qed.

(** A part that does not begin with [a] splits the collapse in two. *)
Lemma collapse_app_starts_not pre t :
  str_starts_not a t → collapse a (pre +:+ t) = collapse a pre +:+ collapse a t.
Proof.
  intros Ht. remember (String.length pre) as n eqn:Hn. revert pre Hn.
  induction n as [n IH] using lt_wf_ind. intros [|c [|d pre]] ->; simpl.
  - done.
  - rewrite collapse_single. simpl. by apply collapse_cons_starts_not.
  - rewrite !collapse_cons_cons. case_decide as Hc.
    + rewrite (IH (String.length pre) ltac:(simpl; lia) pre eq_refl). done.
    + pose proof (IH (String.length (String d pre)) ltac:(simpl; lia) (String d pre) eq_refl)
        as Hpre. simpl in Hpre. rewrite Hpre. done.
Qed.

End collapse.

Lemma convertBraces_collapse value :
  convertBraces value = collapse "}"%char (collapse "{"%char value).
Proof. reflexivity. Qed.

(** A placeholder whose content holds no brace is rewritten in place. *)
Lemma convertBraces_placeholder pre content post :
  str_avoids "{"%char content → str_avoids "}"%char content →
  convertBraces (pre +:+ "{{" +:+ content +:+ "}}" +:+ post)
  = convertBraces pre +:+ "{" +:+ content +:+ "}" +:+ convertBraces post.
Proof.
  intros Hopen Hclose. rewrite !convertBraces_collapse.
  pose proof (collapse_pair_app "{"%char pre (content +:+ "}}" +:+ post)) as H1.
  simpl in H1 |- *. rewrite H1 by (by apply str_avoids_starts_not). clear H1.
  rewrite (collapse_avoids_app "{"%char content) by done.
  rewrite !(collapse_cons_ne "{"%char "}"%char) by done.
  pose proof (collapse_app_starts_not "}"%char (collapse "{"%char pre)
                ("{" +:+ content +:+ "}}" +:+ collapse "{"%char post)) as H2.
  simpl in H2. rewrite H2 by done. clear H2.
  rewrite (collapse_cons_ne "}"%char "{"%char) by done.
  rewrite (collapse_avoids_app "}"%char content) by done.
  rewrite collapse_cons_cons, decide_True by done.
  done.
Qed.

(** Against C1 as stated: the canonical form of ["{{x}}-{{y|secret}}"] is
    not ["{x}-{y}"]; the modifier [|secret] stays. *)
Lemma convertBraces_example_not_stripped : convertBraces "{{x}}-{{y|secret}}" ≠ "{x}-{y}".
Proof. vm_compute. discriminate. Qed.

(** C1, amended: [convertBraces "{{x}}-{{y|secret}}"] is
    ["{x}-{y|secret}"] and the variables [extractVars] finds in that string
    are exactly [x] and [y], whatever the config index; more generally a
    placeholder [{{name}}] or [{{name|modifiers}}] whose name and modifiers
    hold no brace is rewritten in place to the single-brace token with its
    modifiers kept, [{name}] or [{name|modifiers}]: the canonical form of
    the value is the canonical form of what precedes the placeholder, the
    token, and the canonical form of what follows it. *)
Theorem convertBraces_keeps_modifiers :
  convertBraces "{{x}}-{{y|secret}}" = "{x}-{y|secret}" ∧
  (∀ configMap,
     dom <$> extractVars "{{x}}-{{y|secret}}" configMap
     = Some ({["x"; "y"]} : gset string)) ∧
  (∀ pre name post,
     strings.Contains name "{" = false → strings.Contains name "}" = false →
     convertBraces (pre +:+ "{{" +:+ name +:+ "}}" +:+ post)
     = convertBraces pre +:+ "{" +:+ name +:+ "}" +:+ convertBraces post) ∧
  (∀ pre name modifiers post,
     strings.Contains name "{" = false → strings.Contains name "}" = false →
     strings.Contains modifiers "{" = false → strings.Contains modifiers "}" = false →
     convertBraces (pre +:+ "{{" +:+ name +:+ "|" +:+ modifiers +:+ "}}" +:+ post)
     = convertBraces pre +:+ "{" +:+ name +:+ "|" +:+ modifiers +:+ "}"
       +:+ convertBraces post).
Proof.
  split_and!.
  - reflexivity.
  - intros. vm_compute. reflexivity.
  - intros pre name post ?%Contains_byte_false ?%Contains_byte_false.
    by apply convertBraces_placeholder.
  - intros pre name modifiers post ?%Contains_byte_false ?%Contains_byte_false
      ?%Contains_byte_false ?%Contains_byte_false.
    pose proof (convertBraces_placeholder pre (name +:+ "|" +:+ modifiers) post) as Hcanon.
    rewrite !str_app_assoc in Hcanon. apply Hcanon.
    + apply str_avoids_app; [done|]. by apply (str_avoids_app _ "|").
    + apply str_avoids_app; [done|]. by apply (str_avoids_app _ "|").
Qed.

Lemma convertBraces_keeps_modifiers_witness :
  convertBraces ("--dir=" +:+ "{{" +:+ "paths" +:+ "|" +:+ "volume" +:+ "}}" +:+ ":ro")
  = convertBraces "--dir=" +:+ "{" +:+ "paths" +:+ "|" +:+ "volume" +:+ "}"
    +:+ convertBraces ":ro".
Proof.
  apply (proj2 (proj2 (proj2 convertBraces_keeps_modifiers))); reflexivity.
Defined.

(** C7: on a string that contains neither ["{{"] nor ["}}"],
    [convertBraces] is the identity and [extractVars] returns the empty
    map. *)
Theorem no_doubled_braces_identity value configMap :
  strings.Contains value "{{" = false →
  strings.Contains value "}}" = false →
  convertBraces value = value ∧ extractVars value configMap = Some ∅.
Proof.
  intros Hopen Hclose. split.
  - unfold convertBraces.
    rewrite (ReplaceAll_absent value "{{") by done. by apply ReplaceAll_absent.
  - unfold extractVars. rewrite extractVars_loop_eq.
    unfold extractVars_body. rewrite slice_from_le by lia.
    cbn [str_drop mbind option_bind]. unfold strings.Contains in Hopen.
    by destruct (strings.Index value "{{").
Qed.

Lemma no_doubled_braces_identity_witness :
  convertBraces "/data/{x}:ro" = "/data/{x}:ro" ∧ extractVars "/data/{x}:ro" ∅ = Some ∅.
Proof. apply no_doubled_braces_identity; reflexivity. Defined.

(** * [transformEntry] *)

Lemma transformEntry_env_no_panic configMap env :
  is_Some (transformEntry_env configMap env).
Proof.
  unfold transformEntry_env. destruct (strings.Contains _ _); [|done].
  destruct (extractVars_no_panic (EnvVar.Value env) configMap) as [variables ->].
  simpl. by case_decide.
Qed.

Lemma SplitN_head s sep n : (0 < n)%Z → is_Some (strings.SplitN s sep n !! 0).
Proof.
  intros. unfold strings.SplitN. rewrite decide_False, decide_False by lia.
  apply genSplit_head.
Qed.

Lemma transformEntry_command_no_panic configMap cmd :
  is_Some (transformEntry_command configMap cmd).
Proof.
  unfold transformEntry_command. destruct (strings.HasPrefix _ _); [|done].
  destruct (SplitN_head cmd "=" 2) as [name Hname]; [done|].
  rewrite Hname. simpl. case_decide as Hlen; [|done].
  destruct (lookup_lt_is_Some_2 (strings.SplitN cmd "=" 2) 1 Hlen) as [part ->].
  simpl. destruct (strings.Contains _ _); [|done].
  by destruct (extractVars_no_panic part configMap) as [variables ->].
Qed.

Lemma transformEntry_runtime_no_panic configMap flag value :
  is_Some (transformEntry_runtime configMap flag value).
Proof.
  unfold transformEntry_runtime. destruct (strings.Contains _ _); [|done].
  by destruct (extractVars_no_panic value configMap) as [variables ->].
Qed.

Lemma transformEntry_description_no_panic (description : string) :
  (if decide (100 < String.length description)
   then head ← slice_to description 97; Some (head +:+ "...")
   else Some description) = Some (truncated description).
Proof.
  unfold truncated. case_decide; [|done].
  unfold slice_to. rewrite slice_le by lia. done.
Qed.

Lemma transformEntry_remote ord name entry remote :
  DockerCatalogEntry.Type_ entry = "remote" →
  DockerCatalogEntry.Remote entry = Some remote →
  transformEntry ord name entry =
  Some (server_header name entry []
          [Transport.mk (Remote.TransportType remote) (Remote.URL remote)
             ((λ kv : string * string, KeyValueInput.mk kv.1 kv.2 "" false false false ∅)
                <$> range_headers ord (Remote.Headers remote))]
          None).
Proof.
  intros Htype Hremote. unfold transformEntry.
  rewrite transformEntry_description_no_panic. simpl.
  rewrite Hremote. by destruct (decide _).
Qed.

Lemma transformEntry_package ord name entry :
  ¬ remote_branch entry →
  ∃ envs packageArguments volumes user,
    mapM (transformEntry_env (buildConfigMap ord (DockerCatalogEntry.Config entry)))
      (DockerCatalogEntry.Env entry) = Some envs ∧
    mapM (transformEntry_command (buildConfigMap ord (DockerCatalogEntry.Config entry)))
      (DockerCatalogEntry.Command entry) = Some packageArguments ∧
    mapM (transformEntry_runtime (buildConfigMap ord (DockerCatalogEntry.Config entry)) "-v")
      (DockerCatalogEntry.Volumes entry) = Some volumes ∧
    (if decide (DockerCatalogEntry.User entry ≠ "")
     then arg ← transformEntry_runtime
                  (buildConfigMap ord (DockerCatalogEntry.Config entry)) "-u"
                  (DockerCatalogEntry.User entry);
          Some [arg]
     else Some []) = Some user ∧
    transformEntry ord name entry =
    Some (server_header name entry
            [Package.mk "oci" (Transport.mk "stdio" "" [])
               (DockerCatalogEntry.Image entry) ""
               (envs ++ (transformEntry_secret <$> DockerCatalogEntry.Secrets entry))
               packageArguments (volumes ++ user)
               (if decide (0 < length (volumes ++ user)) then "docker" else "")]
            [] (transformEntry_repository entry)).
Proof.
  intros Hbranch. unfold transformEntry.
  rewrite transformEntry_description_no_panic. simpl.
  set (configMap := buildConfigMap ord (DockerCatalogEntry.Config entry)).
  destruct (mapM_is_Some_2 (transformEntry_env configMap) (DockerCatalogEntry.Env entry))
    as [envs Henvs].
  { apply Forall_forall. intros. apply transformEntry_env_no_panic. }
  destruct (mapM_is_Some_2 (transformEntry_command configMap)
              (DockerCatalogEntry.Command entry)) as [packageArguments Hargs].
  { apply Forall_forall. intros. apply transformEntry_command_no_panic. }
  destruct (mapM_is_Some_2 (transformEntry_runtime configMap "-v")
              (DockerCatalogEntry.Volumes entry)) as [volumes Hvolumes].
  { apply Forall_forall. intros. apply transformEntry_runtime_no_panic. }
  assert (∃ user,
            (if decide (DockerCatalogEntry.User entry ≠ "")
             then arg ← transformEntry_runtime configMap "-u" (DockerCatalogEntry.User entry);
                  Some [arg]
             else Some []) = Some user) as [user Huser].
  { case_decide; [|by eexists].
    destruct (transformEntry_runtime_no_panic configMap "-u" (DockerCatalogEntry.User entry))
      as [arg ->]. by eexists. }
  exists envs, packageArguments, volumes, user. split_and!; [done..|].
  assert (Package.Identifier
            (Package.mk "oci" (Transport.mk "stdio" "" [])
               (if decide (DockerCatalogEntry.Image entry ≠ "")
                then DockerCatalogEntry.Image entry else "") "" [] [] [] "")
          = DockerCatalogEntry.Image entry) as Himage.
  { simpl. destruct (decide (DockerCatalogEntry.Image entry ≠ "")) as [|Himg]; [done|].
    apply dec_stable in Himg. by rewrite Himg. }
  simpl in Himage.
  destruct (decide (DockerCatalogEntry.Type_ entry = "remote")) as [Htype|Htype];
    destruct (DockerCatalogEntry.Remote entry) as [remote|] eqn:Hremote.
  - destruct Hbranch. by split.
  - rewrite Henvs, Hargs, Hvolumes, Huser. simpl. by rewrite Himage.
  - rewrite Henvs, Hargs, Hvolumes, Huser. simpl. by rewrite Himage.
  - rewrite Henvs, Hargs, Hvolumes, Huser. simpl. by rewrite Himage.
Qed.

Lemma remote_branch_dec entry : Decision (remote_branch entry).
Proof. unfold remote_branch. apply _. Qed.

Lemma transformEntry_no_panic ord name entry :
  is_Some (transformEntry ord name entry).
Proof.
  destruct (remote_branch_dec entry) as [[Htype [remote Hremote]]|Hbranch].
  - by rewrite (transformEntry_remote _ _ _ remote).
  - by destruct (transformEntry_package ord name entry Hbranch)
      as (? & ? & ? & ? & _ & _ & _ & _ & ->).
Qed.

(** C3: the descriptor [transformEntry] returns has a non-empty [Packages]
    list or a non-empty [Remotes] list, and never both. *)
Theorem transformEntry_packages_xor_remotes ord name entry :
  ∃ server,
    transformEntry ord name entry = Some server ∧
    (RegistryServer.Packages server ≠ [] ∨ RegistryServer.Remotes server ≠ []) ∧
    ¬ (RegistryServer.Packages server ≠ [] ∧ RegistryServer.Remotes server ≠ []).
Proof.
  destruct (remote_branch_dec entry) as [[Htype [remote Hremote]]|Hbranch].
  - eexists. split; [by apply transformEntry_remote|]. simpl. split; [by right|].
    by intros [? _].
  - destruct (transformEntry_package ord name entry Hbranch)
      as (? & ? & ? & ? & _ & _ & _ & _ & ->).
    eexists. split; [done|]. simpl. split; [by left|]. by intros [_ ?].
Qed.

Lemma transformEntry_Description ord name entry server :
  transformEntry ord name entry = Some server →
  RegistryServer.Description server = truncated (DockerCatalogEntry.Description entry).
Proof.
  destruct (remote_branch_dec entry) as [[Htype [remote Hremote]]|Hbranch].
  - rewrite (transformEntry_remote _ _ _ remote) by done. by intros [= <-].
  - destruct (transformEntry_package ord name entry Hbranch)
      as (? & ? & ? & ? & _ & _ & _ & _ & ->). by intros [= <-].
Qed.

(** Against C5 as stated: lengths are counted in bytes, not in characters.
    A description of 34 characters, each of three bytes, is truncated
    although it has fewer than 100 characters; the cut falls inside the
    33rd character, and the result has 100 bytes but only 36 characters. *)
Lemma transformEntry_description_counts_bytes :
  rune_count euro_description = 34 ∧
  String.length euro_description = 102 ∧
  ∃ server,
    transformEntry sorted_order "svc" (sample_entry euro_description "server" [] None)
    = Some server ∧
    RegistryServer.Description server ≠ euro_description ∧
    RegistryServer.Description server = str_repeat 32 euro +:+ String "226" "..." ∧
    String.length (RegistryServer.Description server) = 100 ∧
    rune_count (RegistryServer.Description server) = 36.
Proof.
  split_and!; [reflexivity..|].
  destruct (transformEntry_no_panic sorted_order "svc"
              (sample_entry euro_description "server" [] None)) as [server Hserver].
  exists server. split; [done|].
  rewrite (transformEntry_Description _ _ _ _ Hserver).
  split_and!; [|reflexivity..]. vm_compute. discriminate.
Qed.

(** C5, amended: lengths are in bytes.  A description of at most 100 bytes
    is copied unchanged; a longer one becomes its first 97 bytes followed by
    ["..."], which is 100 bytes long and ends with ["..."]. *)
Theorem transformEntry_description_truncated ord name entry :
  ∃ server,
    transformEntry ord name entry = Some server ∧
    (String.length (DockerCatalogEntry.Description entry) ≤ 100 →
     RegistryServer.Description server = DockerCatalogEntry.Description entry) ∧
    (100 < String.length (DockerCatalogEntry.Description entry) →
     String.length (RegistryServer.Description server) = 100 ∧
     RegistryServer.Description server
       = str_take 97 (DockerCatalogEntry.Description entry) +:+ "..." ∧
     str_drop 97 (RegistryServer.Description server) = "...").
Proof.
  destruct (transformEntry_no_panic ord name entry) as [server Hserver].
  exists server. split; [done|].
  rewrite (transformEntry_Description _ _ _ _ Hserver). unfold truncated.
  split; intros Hlen.
  - by rewrite decide_False by lia.
  - rewrite decide_True by lia. split_and!; [|done|].
    + rewrite str_app_length, str_take_length by lia. done.
    + rewrite <-(str_take_length 97 (DockerCatalogEntry.Description entry)) at 1 by lia.
      apply str_drop_app_length.
Qed.

Lemma transformEntry_description_truncated_witness :
  (∃ server,
     transformEntry sorted_order "short"
       (sample_entry "A short description." "server" [] None) = Some server ∧
     RegistryServer.Description server = "A short description.") ∧
  (∃ server,
     transformEntry sorted_order "long" (sample_entry long_description "server" [] None)
       = Some server ∧
     String.length (RegistryServer.Description server) = 100 ∧
     RegistryServer.Description server = str_take 97 long_description +:+ "..." ∧
     str_drop 97 (RegistryServer.Description server) = "...").
Proof.
  split.
  - destruct (transformEntry_description_truncated sorted_order "short"
                (sample_entry "A short description." "server" [] None))
      as (server & Hserver & Hshort & _).
    exists server. split; [exact Hserver|]. apply Hshort. simpl. lia.
  - destruct (transformEntry_description_truncated sorted_order "long"
                (sample_entry long_description "server" [] None))
      as (server & Hserver & _ & Hlong).
    exists server. split; [exact Hserver|]. apply Hlong. simpl. lia.
Defined.

(** C6: for the [i]-th secret of an entry that is not of type ["remote"],
    the package holds, after the descriptors of [entry.Env], an
    environment-variable descriptor named after the secret's [Env], with
    value ["{" + name + "}"] and exactly one variable, [name], marked secret
    and required; the config blocks of the entry play no part. *)
Theorem transformEntry_secret_descriptor ord name entry i secret :
  DockerCatalogEntry.Type_ entry ≠ "remote" →
  DockerCatalogEntry.Secrets entry !! i = Some secret →
  ∃ server pkg kv,
    transformEntry ord name entry = Some server ∧
    RegistryServer.Packages server = [pkg] ∧
    Package.EnvironmentVariables pkg !! (length (DockerCatalogEntry.Env entry) + i)
      = Some kv ∧
    KeyValueInput.Name kv = Secret.Env secret ∧
    KeyValueInput.Value kv = "{" +:+ Secret.Name secret +:+ "}" ∧
    KeyValueInput.Variables kv = {[ Secret.Name secret := InputSchema.mk true true "" "" ]} ∧
    dom (KeyValueInput.Variables kv) = {[ Secret.Name secret ]}.
Proof.
  intros Htype Hsecret.
  destruct (transformEntry_package ord name entry)
    as (envs & ? & ? & ? & Henvs & _ & _ & _ & ->).
  { by intros [? _]. }
  eexists _, _, (transformEntry_secret secret). split_and!; try done.
  - simpl. apply length_mapM in Henvs. rewrite Henvs.
    rewrite lookup_app_r, Nat.add_comm, Nat.add_sub by lia.
    by rewrite list_lookup_fmap, Hsecret.
  - simpl. apply dom_singleton_L.
Qed.

Lemma transformEntry_secret_descriptor_witness :
  ∃ server pkg kv,
    transformEntry sorted_order "svc"
      (sample_entry "" "server" [Secret.mk "API_KEY" "KEY_ENV" ""] None) = Some server ∧
    RegistryServer.Packages server = [pkg] ∧
    Package.EnvironmentVariables pkg !! (0 + 0) = Some kv ∧
    KeyValueInput.Name kv = "KEY_ENV" ∧
    KeyValueInput.Value kv = "{" +:+ "API_KEY" +:+ "}" ∧
    KeyValueInput.Variables kv = {[ "API_KEY" := InputSchema.mk true true "" "" ]} ∧
    dom (KeyValueInput.Variables kv) = {[ "API_KEY" ]}.
Proof.
  apply (transformEntry_secret_descriptor sorted_order "svc"
           (sample_entry "" "server" [Secret.mk "API_KEY" "KEY_ENV" ""] None)
           0 (Secret.mk "API_KEY" "KEY_ENV" "")).
  - simpl. discriminate.
  - reflexivity.
Defined.

(** * The config index does not depend on the iteration order *)

Lemma buildConfigMap_property_commute cfgName result (p q : string * Any) :
  p.1 ≠ q.1 →
  buildConfigMap_property cfgName (buildConfigMap_property cfgName result p) q
  = buildConfigMap_property cfgName (buildConfigMap_property cfgName result q) p.
Proof.
  intros Hne. unfold buildConfigMap_property.
  destruct p as [k1 [| | | | |m1| | |]], q as [k2 [| | | | |m2| | |]]; simpl in *; try done.
  apply insert_insert_ne. intros Heq%(inj (String.app cfgName)).
  apply (inj (String.app ".")) in Heq. done.
Qed.

Lemma buildConfigMap_properties_perm cfgName result (l1 l2 : list (string * Any)) :
  NoDup (l1.*1) → l1 ≡ₚ l2 →
  foldl (buildConfigMap_property cfgName) result l1
  = foldl (buildConfigMap_property cfgName) result l2.
Proof.
  intros Hnodup Hperm. revert result Hnodup.
  induction Hperm as [|p l1 l2 Hperm IH|p q l|l1 l2 l3 Hperm1 IH1 Hperm2 IH2];
    intros result Hnodup; simpl.
  - done.
  - apply IH. by apply NoDup_cons in Hnodup as [_ ?].
  - f_equal. apply buildConfigMap_property_commute.
    simpl in Hnodup. apply NoDup_cons in Hnodup as [Hq _]. set_solver.
  - rewrite IH1 by done. apply IH2. by rewrite <-Hperm1.
Qed.

Lemma buildConfigMap_loop_order ord1 ord2 i1 i2 configs result :
  buildConfigMap_loop ord1 i1 configs result = buildConfigMap_loop ord2 i2 configs result.
Proof.
  revert i1 i2 result. induction configs as [|cfg configs IH]; intros i1 i2 result; simpl.
  - done.
  - rewrite (buildConfigMap_properties_perm _ _
               (range_properties ord1 i1 (Config.Properties cfg))
               (range_properties ord2 i2 (Config.Properties cfg))).
    + apply IH.
    + rewrite range_properties_perm. apply NoDup_fst_map_to_list.
    + by rewrite !range_properties_perm.
Qed.

Lemma buildConfigMap_order ord1 ord2 configs :
  buildConfigMap ord1 configs = buildConfigMap ord2 configs.
Proof. apply buildConfigMap_loop_order. Qed.

Lemma transformEntry_order ord1 ord2 name entry :
  (∀ remote,
     DockerCatalogEntry.Type_ entry = "remote" →
     DockerCatalogEntry.Remote entry = Some remote →
     range_headers ord1 (Remote.Headers remote) = range_headers ord2 (Remote.Headers remote)) →
  transformEntry ord1 name entry = transformEntry ord2 name entry.
Proof.
  intros Hheaders. unfold transformEntry.
  rewrite (buildConfigMap_order ord1 ord2).
  destruct (decide (DockerCatalogEntry.Type_ entry = "remote")) as [Htype|];
    destruct (DockerCatalogEntry.Remote entry) as [remote|]; try done.
  by rewrite (Hheaders remote).
Qed.

Lemma range_headers_short ord1 ord2 (headers : gmap string string) :
  size headers ≤ 1 → range_headers ord1 headers = range_headers ord2 headers.
Proof.
  intros Hsize.
  pose proof (range_headers_perm ord1 headers) as H1.
  pose proof (range_headers_perm ord2 headers) as H2.
  rewrite <-length_map_to_list in Hsize.
  destruct (map_to_list headers) as [|kv [|??]]; simpl in Hsize; [| |lia].
  - apply Permutation_nil_r in H1, H2. congruence.
  - apply Permutation_singleton_r in H1, H2. congruence.
Qed.

Lemma main_loop_order ord1 ord2 entries servers :
  main_loop ord1 entries servers = main_loop ord2 entries servers.
Proof.
  revert servers. induction entries as [|[name entry] entries IH]; intros servers; simpl.
  - done.
  - case_decide as Htype; [done|].
    rewrite (transformEntry_order ord1 ord2) by done.
    destruct (transformEntry ord2 name entry); simpl; auto.
Qed.

(** Against C9 as stated: two iteration orders of the header map give two
    different descriptors for the same remote entry. *)
Lemma transformEntry_header_order_matters :
  transformEntry sorted_order "r" two_header_entry
  ≠ transformEntry reversed_order "r" two_header_entry.
Proof.
  intros Heq.
  apply (f_equal (fmap (λ server,
           (λ transport, KeyValueInput.Name <$> Transport.Headers transport)
             <$> RegistryServer.Remotes server))) in Heq.
  vm_compute in Heq. discriminate.
Qed.

(** C9, amended: [transformEntry] returns the same descriptor under any
    two iteration orders for every entry that is not of type ["remote"], has
    no remote descriptor, or has at most one remote header; and the batch
    loop of [main], which transforms only entries that are not of type
    ["remote"], returns the same servers whenever the registry is ranged in
    the same order. *)
Theorem transformEntry_deterministic_up_to_headers ord1 ord2 :
  (∀ name entry,
     DockerCatalogEntry.Type_ entry ≠ "remote" ∨
     DockerCatalogEntry.Remote entry = None ∨
     (∃ remote, DockerCatalogEntry.Remote entry = Some remote ∧
                size (Remote.Headers remote) ≤ 1) →
     transformEntry ord1 name entry = transformEntry ord2 name entry) ∧
  (∀ catalog,
     range_registry ord1 (DockerCatalog.Registry catalog)
       = range_registry ord2 (DockerCatalog.Registry catalog) →
     main_servers ord1 catalog = main_servers ord2 catalog).
Proof.
  split.
  - intros name entry Hcase. apply transformEntry_order. intros remote Htype Hremote.
    destruct Hcase as [?|[?|(remote' & ? & ?)]]; [done|congruence|].
    apply range_headers_short. congruence.
  - intros catalog Hreg. unfold main_servers. rewrite Hreg. apply main_loop_order.
Qed.

Lemma transformEntry_deterministic_up_to_headers_witness :
  transformEntry sorted_order "svc"
    (sample_entry "" "server" [Secret.mk "API_KEY" "KEY_ENV" ""] None)
  = transformEntry reversed_order "svc"
    (sample_entry "" "server" [Secret.mk "API_KEY" "KEY_ENV" ""] None) ∧
  main_servers sorted_order
    (DockerCatalog.mk "c" "C" {[ "svc" := sample_entry "" "server" [] None ]})
  = main_servers reversed_order
    (DockerCatalog.mk "c" "C" {[ "svc" := sample_entry "" "server" [] None ]}).
Proof.
  split.
  - apply (proj1 (transformEntry_deterministic_up_to_headers sorted_order reversed_order)).
    left. simpl. discriminate.
  - apply (proj2 (transformEntry_deterministic_up_to_headers sorted_order reversed_order)).
    vm_compute. reflexivity.
Defined.

(** * The batch loop *)

Lemma transformEntry_Name ord name entry server :
  transformEntry ord name entry = Some server →
  RegistryServer.Name server = "com.docker.mcp/" +:+ name.
Proof.
  destruct (remote_branch_dec entry) as [[Htype [remote Hremote]]|Hbranch].
  - rewrite (transformEntry_remote _ _ _ remote) by done. by intros [= <-].
  - destruct (transformEntry_package ord name entry Hbranch)
      as (? & ? & ? & ? & _ & _ & _ & _ & ->). by intros [= <-].
Qed.

(** The loop appends to [servers] the descriptors of the entries that are
    not of type ["remote"], in the order of [entries]. *)
Lemma main_loop_filter ord entries servers :
  ∃ out,
    main_loop ord entries servers = Some (servers ++ out) ∧
    Forall2 (λ (ne : string * DockerCatalogEntry.t) server,
               transformEntry ord ne.1 ne.2 = Some server)
      (filter (λ ne, DockerCatalogEntry.Type_ ne.2 ≠ "remote") entries) out.
Proof.
  revert servers. induction entries as [|[name entry] entries IH]; intros servers; simpl.
  - exists []. by rewrite app_nil_r.
  - destruct (decide (DockerCatalogEntry.Type_ entry = "remote")) as [Htype|Htype].
    + rewrite filter_cons_False by (simpl; by intros ?). apply IH.
    + rewrite filter_cons_True by done.
      destruct (transformEntry_no_panic ord name entry) as [server Hserver].
      rewrite Hserver. simpl.
      destruct (IH (servers ++ [server])) as (out & -> & Hout).
      exists (server :: out). split; [by rewrite <-app_assoc|].
      by constructor.
Qed.

(** Against C4 as stated: an entry of type ["remote"] without a remote
    descriptor is given a package. *)
Lemma transformEntry_remote_type_with_package :
  ∃ server,
    transformEntry sorted_order "r" (sample_entry "" "remote" [] None) = Some server ∧
    RegistryServer.Packages server ≠ [].
Proof. eexists. split; [vm_compute; reflexivity|]. discriminate. Qed.

(** C4, amended: the servers [main] collects are the descriptors of the
    entries whose type is not ["remote"], each transformed on its own, in
    the order the registry is ranged; no collected server carries the name
    of an entry of type ["remote"]; every other entry has its descriptor in
    the output; and [transformEntry] gives no package to an entry of type
    ["remote"] that has a remote descriptor. *)
Theorem main_excludes_remote_entries ord catalog :
  ∃ servers,
    main_servers ord catalog = Some servers ∧
    Forall2 (λ (ne : string * DockerCatalogEntry.t) server,
               transformEntry ord ne.1 ne.2 = Some server)
      (filter (λ ne, DockerCatalogEntry.Type_ ne.2 ≠ "remote")
         (range_registry ord (DockerCatalog.Registry catalog)))
      servers ∧
    (∀ name entry,
       DockerCatalog.Registry catalog !! name = Some entry →
       DockerCatalogEntry.Type_ entry = "remote" →
       ∀ server, server ∈ servers →
         RegistryServer.Name server ≠ "com.docker.mcp/" +:+ name) ∧
    (∀ name entry,
       DockerCatalog.Registry catalog !! name = Some entry →
       DockerCatalogEntry.Type_ entry ≠ "remote" →
       ∃ server, transformEntry ord name entry = Some server ∧ server ∈ servers) ∧
    (∀ name entry remote,
       DockerCatalogEntry.Type_ entry = "remote" →
       DockerCatalogEntry.Remote entry = Some remote →
       ∃ server,
         transformEntry ord name entry = Some server ∧
         RegistryServer.Packages server = []).
Proof.
  unfold main_servers.
  destruct (main_loop_filter ord (range_registry ord (DockerCatalog.Registry catalog)) [])
    as (servers & -> & Hservers).
  exists servers. split_and!; [done|done| | |].
  - intros name entry Hentry Htype server Hserver Hname.
    apply list_elem_of_lookup in Hserver as [i Hi].
    destruct (Forall2_lookup_r _ _ _ _ _ Hservers Hi) as ([name' entry'] & Hin & Htr).
    apply list_elem_of_lookup_2, list_elem_of_filter in Hin as [Hremote Hin].
    simpl in *. rewrite (transformEntry_Name _ _ _ _ Htr) in Hname.
    apply (inj (String.app "com.docker.mcp/")) in Hname as ->.
    rewrite range_registry_perm in Hin. apply elem_of_map_to_list in Hin.
    congruence.
  - intros name entry Hentry Htype.
    assert ((name, entry) ∈ filter (λ ne, DockerCatalogEntry.Type_ ne.2 ≠ "remote")
              (range_registry ord (DockerCatalog.Registry catalog))) as Hin.
    { apply list_elem_of_filter. split; [done|].
      rewrite range_registry_perm. by apply elem_of_map_to_list. }
    apply list_elem_of_lookup in Hin as [i Hi].
    destruct (Forall2_lookup_l _ _ _ _ _ Hservers Hi) as (server & Hserver & Htr).
    exists server. split; [done|]. by eapply list_elem_of_lookup_2.
  - intros name entry remote Htype Hremote. eexists.
    split; [by apply transformEntry_remote|done].
Qed.

Lemma main_excludes_remote_entries_witness :
  ∃ servers,
    main_servers sorted_order sample_catalog = Some servers ∧
    (∀ server, server ∈ servers → RegistryServer.Name server ≠ "com.docker.mcp/" +:+ "r") ∧
    (∃ server,
       transformEntry sorted_order "svc" (sample_entry "" "server" [] None) = Some server ∧
       server ∈ servers) ∧
    (∃ server,
       transformEntry sorted_order "r" two_header_entry = Some server ∧
       RegistryServer.Packages server = []).
Proof.
  destruct (main_excludes_remote_entries sorted_order sample_catalog)
    as (servers & Hmain & _ & Hexcluded & Hincluded & Hremote).
  exists servers. split_and!.
  - exact Hmain.
  - apply (Hexcluded "r" two_header_entry); [vm_compute|]; reflexivity.
  - apply (Hincluded "svc" (sample_entry "" "server" [] None));
      [vm_compute; reflexivity|simpl; discriminate].
  - apply (Hremote "r" two_header_entry
             (Remote.mk "sse" "https://mcp.example.com/sse"
                (<["Authorization" := "Bearer {token}"]> (<["X-Api-Version" := "2"]> ∅))));
      reflexivity.
Defined.

Lemma extractVars_fuel_enough fuel value configMap start variables :
  start ≤ String.length value →
  String.length value - start < 2 * fuel →
  ∃ result,
    extractVars_fuel fuel value configMap start variables = Returned result ∧
    extractVars_loop value configMap start variables = Some result.
Proof.
  revert start variables. induction fuel as [|fuel IH]; intros start variables Hstart Hfuel.
  { lia. }
  simpl. rewrite extractVars_loop_eq.
  destruct (extractVars_body_no_panic value configMap start variables Hstart)
    as [[|start' variables'] Hbody]; rewrite Hbody.
  - by exists variables.
  - apply extractVars_body_progress in Hbody as [??]. apply IH; lia.
Qed.

(** C10: a pass through the body of the loop that does not leave it moves
    the scan position at least two bytes forward and not beyond the end of
    the value, so the unscanned suffix shrinks; [extractVars] returns on
    every value, after at most [len(value)/2 + 1] passes. *)
Theorem extractVars_terminates value configMap :
  (∀ start variables start' variables',
     extractVars_body value configMap start variables
       = Some (Continue start' variables') →
     start + 2 ≤ start' ∧ start' ≤ String.length value ∧
     String.length value - start' < String.length value - start) ∧
  ∃ result,
    extractVars value configMap = Some result ∧
    extractVars_fuel (S (String.length value / 2)) value configMap 0 ∅ = Returned result.
Proof.
  split.
  - intros start variables start' variables' [??]%extractVars_body_progress. lia.
  - destruct (extractVars_fuel_enough (S (String.length value / 2)) value configMap 0 ∅)
      as (result & Hfuel & Hloop); [lia| |by exists result].
    pose proof (Nat.div_mod_eq (String.length value) 2).
    pose proof (Nat.mod_upper_bound (String.length value) 2). lia.
Qed.

Lemma extractVars_terminates_witness :
  0 + 2 ≤ 5 ∧ 5 ≤ String.length "{{x}}-{{y|secret}}" ∧
  String.length "{{x}}-{{y|secret}}" - 5 < String.length "{{x}}-{{y|secret}}" - 0.
Proof.
  apply (proj1 (extractVars_terminates "{{x}}-{{y|secret}}" ∅) 0 ∅ 5
           (<["x" := InputSchema.mk false false "string" ""]> ∅)).
  vm_compute. reflexivity.
Defined.

(** * An opening token that is never closed *)

Lemma prefix_app_l p t u :
  String.prefix p t = true → String.prefix p (t +:+ u) = true.
Proof.
  intros [v ->]%prefix_inv. rewrite str_app_assoc. apply prefix_app.
Qed.

Lemma prefix_app_false p t u :
  String.length p ≤ String.length t →
  String.prefix p t = false → String.prefix p (t +:+ u) = false.
Proof.
  revert t; induction p as [|a p IH]; intros [|c t]; simpl; try done; try lia.
  destruct (Ascii.ascii_dec a c); [|done]. intros. apply IH; [lia|done].
Qed.

Lemma Index_app_l s sub u i :
  strings.Index s sub = Some i → strings.Index (s +:+ u) sub = Some i.
Proof.
  intros Hi. pose proof (Index_bound _ _ _ Hi) as Hb.
  apply Index_intro.
  - rewrite str_app_length. lia.
  - rewrite str_drop_app_le by lia. by apply prefix_app_l, Index_Some_prefix.
  - intros j Hj. rewrite str_drop_app_le by lia. apply prefix_app_false.
    + rewrite str_drop_length. lia.
    + by apply (Index_Some_first _ _ i).
Qed.

Lemma Index_drop_None s sub k :
  strings.Index s sub = None → strings.Index (str_drop k s) sub = None.
Proof.
  intros Hs. apply Index_None_intro. intros j _. rewrite str_drop_drop.
  by apply Index_None_prefix.
Qed.

(** No [}}] begins in [s] or straddles its end when an opening brace
    follows. *)
Lemma Index_close_app_open s u :
  strings.Index s "}}" = None →
  strings.Index (String "{" u) "}}" = None →
  strings.Index (s +:+ String "{" u) "}}" = None.
Proof.
  intros Hs Hu. induction s as [|c s IH]; [done|].
  rewrite Index_unfold in Hs.
  change (String c s +:+ String "{" u) with (String c (s +:+ String "{" u)).
  rewrite Index_unfold.
  destruct (String.prefix "}}" (String c s)) eqn:Hp; [done|].
  destruct (strings.Index s "}}") eqn:Hi; [done|].
  rewrite IH by done.
  destruct s as [|d s]; cbn [String.prefix String.append] in Hp |- *.
  - destruct (Ascii.ascii_dec "}" c); [|done].
    by destruct (Ascii.ascii_dec "}" "{").
  - destruct (Ascii.ascii_dec "}" c); [|done].
    destruct (Ascii.ascii_dec "}" d); [|done]. by destruct s.
Qed.

Lemma Index_open_unterminated s rest i :
  strings.Index s "{{" = None →
  strings.Index ("{{" +:+ rest) "}}" = None →
  strings.Index (s +:+ "{{" +:+ rest) "{{" = Some i →
  strings.Index (str_drop i (s +:+ "{{" +:+ rest)) "}}" = None.
Proof.
  intros Hs Hrest Hi.
  assert (i ≤ String.length s) as Hle.
  { destruct (decide (i ≤ String.length s)) as [|Hgt]; [done|].
    pose proof (Index_Some_first _ _ _ (String.length s) Hi ltac:(lia)) as Hfirst.
    rewrite str_drop_app_length in Hfirst. by rewrite prefix_app in Hfirst. }
  assert (String.length s < i + 2) as Hlate.
  { destruct (decide (String.length s < i + 2)) as [|Hearly]; [done|].
    apply Index_Some_prefix in Hi. rewrite str_drop_app_le in Hi by lia.
    destruct (String.prefix "{{" (str_drop i s)) eqn:Hp.
    - by rewrite (Index_None_prefix _ _ i Hs) in Hp.
    - apply (prefix_app_false _ _ ("{{" +:+ rest)) in Hp; [congruence|].
      rewrite str_drop_length. simpl. lia. }
  rewrite str_drop_app_le by lia. apply Index_close_app_open; [|done].
  destruct (strings.Index (str_drop i s) "}}") as [j|] eqn:Hj; [|done].
  apply Index_bound in Hj. rewrite str_drop_length in Hj. simpl in Hj. lia.
Qed.

Lemma extractVars_body_unterminated pre rest configMap start variables :
  strings.Index ("{{" +:+ rest) "}}" = None →
  start ≤ String.length pre →
  extractVars_body (pre +:+ "{{" +:+ rest) configMap start variables
  = extractVars_body pre configMap start variables.
Proof.
  intros Hrest Hstart. unfold extractVars_body.
  rewrite !slice_from_le by (rewrite ?str_app_length; lia).
  rewrite str_drop_app_le by done. cbn [mbind option_bind].
  destruct (strings.Index (str_drop start pre) "{{") as [i|] eqn:Hi.
  - rewrite (Index_app_l _ _ _ _ Hi).
    apply Index_bound in Hi as Hib. rewrite str_drop_length in Hib. simpl in Hib.
    rewrite !slice_from_le by (rewrite ?str_app_length; lia).
    rewrite str_drop_app_le by lia. cbn [mbind option_bind].
    destruct (strings.Index (str_drop (i + start) pre) "}}") as [j|] eqn:Hj.
    + rewrite (Index_app_l _ _ _ _ Hj).
      apply Index_bound in Hj as Hjb. rewrite str_drop_length in Hjb. simpl in Hjb.
      apply Index_Some_prefix in Hi. rewrite str_drop_drop in Hi.
      replace (start + i) with (i + start) in Hi by lia.
      pose proof (Index_close_after_open _ _ Hi Hj).
      rewrite !slice_le by (rewrite ?str_app_length; lia).
      rewrite str_drop_app_le by lia.
      rewrite str_take_app_le by (rewrite str_drop_length; lia). done.
    + assert (strings.Index (str_drop (i + start) pre +:+ "{{" +:+ rest) "}}" = None)
        as -> by (by apply (Index_close_app_open _ (String "{" rest))).
      done.
  - destruct (strings.Index (str_drop start pre +:+ "{{" +:+ rest) "{{") as [i|] eqn:Hopen;
      [|done].
    pose proof (Index_open_unterminated _ _ _ Hi Hrest Hopen) as Hclose.
    apply Index_bound in Hopen as Hb. rewrite str_app_length, str_drop_length in Hb.
    simpl in Hb.
    rewrite slice_from_le by (rewrite str_app_length; simpl; lia).
    cbn [mbind option_bind].
    rewrite <-(str_drop_app_le start pre) in Hclose by done.
    rewrite str_drop_drop in Hclose.
    replace (start + i) with (i + start) in Hclose by lia. by rewrite Hclose.
Qed.

Lemma extractVars_loop_unterminated pre rest configMap :
  strings.Index ("{{" +:+ rest) "}}" = None →
  ∀ start variables,
    start ≤ String.length pre →
    extractVars_loop (pre +:+ "{{" +:+ rest) configMap start variables
    = extractVars_loop pre configMap start variables.
Proof.
  intros Hrest.
  apply (extractVars_loop_iter_ind pre configMap
           (λ start variables, start ≤ String.length pre →
              extractVars_loop (pre +:+ "{{" +:+ rest) configMap start variables
              = extractVars_loop pre configMap start variables)).
  intros start variables IH Hstart.
  rewrite (extractVars_loop_eq (pre +:+ _)), (extractVars_loop_eq pre).
  rewrite extractVars_body_unterminated by done.
  destruct (extractVars_body pre configMap start variables)
    as [[|start' variables']|] eqn:Hbody; [done| |done].
  apply IH; [done|]. by apply extractVars_body_progress in Hbody as [_ ?].
Qed.

(** * Only object-valued properties reach the config index *)

Lemma buildConfigMap_indexed ord configs fullKey propMap :
  buildConfigMap ord configs !! fullKey = Some propMap →
  ∃ cfg key,
    cfg ∈ configs ∧
    Config.Properties cfg !! key = Some (AMap propMap) ∧
    fullKey = Config.Name cfg +:+ "." +:+ key.
Proof.
  unfold buildConfigMap.
  assert (∀ i (result : gmap string (gmap string Any)),
            buildConfigMap_loop ord i configs result !! fullKey = Some propMap →
            result !! fullKey = Some propMap ∨
            ∃ cfg key,
              cfg ∈ configs ∧
              Config.Properties cfg !! key = Some (AMap propMap) ∧
              fullKey = Config.Name cfg +:+ "." +:+ key) as Hloop.
  { induction configs as [|cfg configs IH]; intros i result; simpl; [by left|].
    intros [Hfold|(cfg' & key & ? & ? & ?)]%IH.
    - assert (∀ l (acc : gmap string (gmap string Any)),
                (∀ p, p ∈ l → Config.Properties cfg !! p.1 = Some p.2) →
                foldl (buildConfigMap_property (Config.Name cfg)) acc l !! fullKey
                  = Some propMap →
                acc !! fullKey = Some propMap ∨
                ∃ key, Config.Properties cfg !! key = Some (AMap propMap) ∧
                       fullKey = Config.Name cfg +:+ "." +:+ key) as Hinner.
      { clear. induction l as [|[key value] l IHl]; intros acc Hl; simpl; [by left|].
        intros [Hacc|?]%IHl; [|by right|by intros; apply Hl; right].
        unfold buildConfigMap_property in Hacc. simpl in Hacc.
        pose proof (Hl (key, value) ltac:(by left)) as Hkey. simpl in Hkey.
        destruct value; try by left.
        destruct (decide (Config.Name cfg +:+ "." +:+ key = fullKey)) as [<-|Hne].
        - rewrite lookup_insert_eq in Hacc. injection Hacc as ->. right. by exists key.
        - rewrite lookup_insert_ne in Hacc by done. by left. }
      destruct (Hinner _ _ (λ p Hp, proj1 (elem_of_map_to_list _ p.1 p.2)
                  ltac:(rewrite <-(range_properties_perm ord i); by destruct p)) Hfold)
        as [?|(key & ? & ?)]; [by left|].
      right. exists cfg, key. split_and!; [by left|done..].
    - right. exists cfg', key. split_and!; [by right|done..]. }
  intros [Hempty|?]%Hloop; [|done]. by rewrite lookup_empty in Hempty.
Qed.

(** C8: when a ["{{"] is followed by no ["}}"], [extractVars] returns what
    the part of the value before it yields: neither that token nor
    anything after it is extracted, and nothing fails.  [extractVars] never
    panics; [buildConfigMap] leaves the index unchanged on a property whose
    value is not an object, so that every indexed key comes from an
    object-valued property; [transformEntry] and the batch loop return on
    every input. *)
Theorem malformed_templates_degrade_silently :
  (∀ pre rest configMap,
     strings.Contains ("{{" +:+ rest) "}}" = false →
     extractVars (pre +:+ "{{" +:+ rest) configMap = extractVars pre configMap) ∧
  (∀ value configMap, is_Some (extractVars value configMap)) ∧
  (∀ cfgName result key value,
     (∀ propMap, value ≠ AMap propMap) →
     buildConfigMap_property cfgName result (key, value) = result) ∧
  (∀ ord configs fullKey propMap,
     buildConfigMap ord configs !! fullKey = Some propMap →
     ∃ cfg key,
       cfg ∈ configs ∧
       Config.Properties cfg !! key = Some (AMap propMap) ∧
       fullKey = Config.Name cfg +:+ "." +:+ key) ∧
  (∀ ord name entry, is_Some (transformEntry ord name entry)) ∧
  (∀ ord catalog, is_Some (main_servers ord catalog)).
Proof.
  split_and!.
  - intros pre rest configMap Hrest. unfold extractVars.
    apply extractVars_loop_unterminated; [|lia].
    unfold strings.Contains in Hrest. by destruct (strings.Index _ "}}").
  - apply extractVars_no_panic.
  - intros cfgName result key value Hvalue. unfold buildConfigMap_property. simpl.
    destruct value; try done. by destruct (Hvalue m).
  - apply buildConfigMap_indexed.
  - apply transformEntry_no_panic.
  - intros ord catalog. unfold main_servers.
    by destruct (main_loop_filter ord
                   (range_registry ord (DockerCatalog.Registry catalog)) [])
      as (servers & -> & _).
Qed.

Lemma malformed_templates_degrade_silently_witness :
  extractVars ("{{a}}:" +:+ "{{" +:+ "b|c") ∅ = extractVars "{{a}}:" ∅ ∧
  buildConfigMap_property "cfg" ∅ ("path", AString "/data") = ∅.
Proof.
  split.
  - apply (proj1 malformed_templates_degrade_silently). reflexivity.
  - apply (proj1 (proj2 (proj2 malformed_templates_degrade_silently))). discriminate.
Defined.

(** * Names with single braces *)

Lemma prefix_app_ext p t u :
  String.length p ≤ String.length t →
  String.prefix p (t +:+ u) = String.prefix p t.
Proof.
  intros Hlen. destruct (String.prefix p t) eqn:Hp.
  - by apply prefix_app_l.
  - by apply prefix_app_false.
Qed.

Lemma Index_app_inv_l s sub u i :
  strings.Index (s +:+ u) sub = Some i →
  i + String.length sub ≤ String.length s →
  strings.Index s sub = Some i.
Proof.
  intros Hi Hb. apply Index_intro; [lia| |].
  - apply Index_Some_prefix in Hi. rewrite str_drop_app_le in Hi by lia.
    rewrite prefix_app_ext in Hi; [done|]. rewrite str_drop_length. lia.
  - intros j Hj. pose proof (Index_Some_first _ _ _ j Hi Hj) as Hfirst.
    rewrite str_drop_app_le in Hfirst by lia.
    rewrite prefix_app_ext in Hfirst; [done|]. rewrite str_drop_length. lia.
Qed.

Section collapse_single_bytes.
Variable a : Ascii.ascii.

Lemma prefix_pair c d s :
  String.prefix (String a (String a "")) (String c (String d s))
  = bool_decide (c = a ∧ d = a).
Proof.
  cbn [String.prefix].
  destruct (Ascii.ascii_dec a c) as [<-|]; [|by rewrite bool_decide_eq_false_2 by (intros [??]; congruence)].
  destruct (Ascii.ascii_dec a d) as [<-|]; [|by rewrite bool_decide_eq_false_2 by (intros [??]; congruence)].
  by rewrite prefix_nil, bool_decide_eq_true_2.
Qed.

(** A part without a doubled [a] is kept as it is when what follows does
    not begin with [a]. *)
Lemma collapse_no_pair_app s t :
  strings.Index s (String a (String a "")) = None →
  str_starts_not a t →
  collapse a (s +:+ t) = s +:+ collapse a t.
Proof.
  intros Hs Ht. induction s as [|c s IH]; [done|].
  rewrite Index_unfold in Hs.
  destruct (String.prefix _ (String c s)) eqn:Hp; [done|].
  destruct (strings.Index s _) eqn:Hi; [done|]. specialize (IH eq_refl).
  change (String c s +:+ t) with (String c (s +:+ t)).
  change (String c s +:+ collapse a t) with (String c (s +:+ collapse a t)).
  rewrite <-IH. destruct s as [|d s].
  - by apply collapse_cons_starts_not.
  - change (String d s +:+ t) with (String d (s +:+ t)).
    rewrite collapse_cons_cons. rewrite prefix_pair in Hp.
    apply bool_decide_eq_false in Hp. by rewrite decide_False.
Qed.

(** A part whose first doubled [a] is the one that follows it is kept, and
    that doubled [a] becomes one. *)
Lemma collapse_no_pair_then_pair s t :
  strings.Index (s +:+ String a (String a "")) (String a (String a ""))
    = Some (String.length s) →
  collapse a (s +:+ String a (String a t)) = s +:+ String a (collapse a t).
Proof.
  induction s as [|c s IH]; intros Hs.
  - simpl. rewrite collapse_cons_cons. by rewrite decide_True.
  - change (String c s +:+ ?x) with (String c (s +:+ x)) in *.
    rewrite Index_unfold in Hs.
    destruct (String.prefix _ (String c _)) eqn:Hp; [done|].
    destruct (strings.Index (s +:+ _) _) as [k|] eqn:Hi; [|done].
    simpl in Hs. injection Hs as ->. rewrite <-(IH eq_refl).
    destruct s as [|d s].
    + cbn [String.append] in Hp |- *. rewrite prefix_pair in Hp. apply bool_decide_eq_false in Hp.
      apply collapse_cons_ne. naive_solver.
    + change (String d s +:+ ?x) with (String d (s +:+ x)) in *.
      rewrite prefix_pair in Hp. apply bool_decide_eq_false in Hp.
      rewrite collapse_cons_cons. by rewrite decide_False.
Qed.

(** Three [a] in a row followed by something else leave two. *)
Lemma collapse_before_triple pre t :
  str_starts_not a t →
  ∃ pre',
    collapse a (pre +:+ String a (String a (String a t)))
    = pre' +:+ String a (String a (collapse a t)).
Proof.
  intros Ht. remember (String.length pre) as n eqn:Hn. revert pre Hn.
  induction n as [n IH] using lt_wf_ind. intros [|c [|d pre]] ->; simpl.
  - exists "". rewrite collapse_cons_cons, decide_True by done.
    simpl. by rewrite collapse_cons_starts_not.
  - rewrite collapse_cons_cons. case_decide as Hc.
    + exists "". simpl. f_equal. rewrite collapse_cons_cons. by rewrite decide_True.
    + exists (String c ""). simpl. f_equal.
      rewrite collapse_cons_cons, decide_True by done.
      by rewrite collapse_cons_starts_not.
  - rewrite collapse_cons_cons. case_decide as Hc.
    + destruct (IH (String.length pre) ltac:(simpl; lia) pre eq_refl) as [pre' ->].
      by exists (String a pre').
    + destruct (IH (String.length (String d pre)) ltac:(simpl; lia) (String d pre) eq_refl)
        as [pre' Hpre]. simpl in Hpre. rewrite Hpre.
      by exists (String c pre').
Qed.

(** After a doubled [a], a name without a doubled [a] is kept, behind one
    [a]. *)
Lemma collapse_open_name pre name tail :
  strings.Index name (String a (String a "")) = None →
  str_starts_not a tail →
  ∃ pre',
    collapse a (pre +:+ String a (String a (name +:+ tail)))
    = pre' +:+ String a (name +:+ collapse a tail).
Proof.
  intros Hname Htail. destruct name as [|c name].
  - simpl. by apply collapse_before_pair.
  - destruct (decide (c = a)) as [->|Hc].
    + assert (str_starts_not a name ∧
              strings.Index name (String a (String a "")) = None) as [Hstart Hrest].
      { rewrite Index_unfold in Hname.
        destruct (String.prefix _ (String a name)) eqn:Hp; [done|].
        destruct (strings.Index name _); [done|]. split; [|done].
        destruct name as [|d name]; [done|]. simpl.
        rewrite prefix_pair in Hp. apply bool_decide_eq_false in Hp. naive_solver. }
      change (String a name +:+ ?x) with (String a (name +:+ x)).
      destruct (collapse_before_triple pre (name +:+ tail)) as [pre' ->].
      { destruct name; [done|]. exact Hstart. }
      exists pre'. by rewrite collapse_no_pair_app.
    + change (String c name +:+ ?x) with (String c (name +:+ x)).
      destruct (collapse_before_pair a pre (String c (name +:+ tail))) as [pre' ->];
        [done|].
      exists pre'. f_equal. f_equal.
      change (String c (name +:+ tail)) with (String c name +:+ tail).
      by apply collapse_no_pair_app.
Qed.

End collapse_single_bytes.

Lemma convertBraces_token_close pre name post :
  strings.Index name "{{" = None →
  strings.Index (name +:+ "}}") "}}" = Some (String.length name) →
  ∃ pre' post',
    convertBraces (pre +:+ "{{" +:+ name +:+ "}}" +:+ post)
    = pre' +:+ ("{" +:+ name +:+ "}") +:+ post'.
Proof.
  intros Hopen Hclose. rewrite convertBraces_collapse.
  destruct (collapse_open_name "{" pre name ("}}" +:+ post)) as [pre1 H1]; [done..|].
  cbn [String.append] in H1 |- *. rewrite H1. clear H1.
  rewrite !(collapse_cons_ne "{" "}") by done.
  destruct (collapse_before_other "}" pre1
              (String "{" (name +:+ String "}" (String "}" (collapse "{" post)))))
    as [pre2 ->]; [done|].
  rewrite (collapse_cons_ne "}" "{") by done.
  rewrite collapse_no_pair_then_pair by done.
  exists pre2, (collapse "}" (collapse "{" post)).
  repeat first [rewrite str_app_assoc | progress simpl]. done.
Qed.

Lemma convertBraces_token_modifier pre name post :
  strings.Index name "{{" = None →
  strings.Index name "}}" = None →
  ∃ pre' post',
    convertBraces (pre +:+ "{{" +:+ name +:+ "|" +:+ post)
    = pre' +:+ ("{" +:+ name +:+ "|") +:+ post'.
Proof.
  intros Hopen Hclose. rewrite convertBraces_collapse.
  destruct (collapse_open_name "{" pre name ("|" +:+ post)) as [pre1 H1]; [done..|].
  cbn [String.append] in H1 |- *. rewrite H1. clear H1.
  rewrite (collapse_cons_ne "{" "|") by done.
  destruct (collapse_before_other "}" pre1
              (String "{" (name +:+ String "|" (collapse "{" post))))
    as [pre2 ->]; [done|].
  rewrite (collapse_cons_ne "}" "{") by done.
  rewrite (collapse_no_pair_app "}" name) by done.
  rewrite (collapse_cons_ne "}" "|") by done.
  exists pre2, (collapse "}" (collapse "{" post)).
  repeat first [rewrite str_app_assoc | progress simpl]. done.
Qed.

(** The iteration that records [varName] has read it out of a complete
    placeholder of the value, closed by the first [}}] after its opening. *)
Lemma extractVars_body_placeholder value configMap start variables start' variables' :
  extractVars_body value configMap start variables = Some (Continue start' variables') →
  ∃ pre content post varName schema,
    value = pre +:+ "{{" +:+ content +:+ "}}" +:+ post ∧
    strings.Index (content +:+ "}}") "}}" = Some (String.length content) ∧
    strings.Split content "|" !! 0 = Some varName ∧
    variables' = <[varName := schema]> variables.
Proof.
  intros (idx & endIdx & varName & schema & Hs & Hi & He & Hopen & Hclose & Hname & _ & ->)
    %extractVars_body_Continue.
  apply Index_Some_prefix in Hopen. rewrite str_drop_drop in Hopen.
  replace (start + (idx - start)) with idx in Hopen by lia.
  apply prefix_inv in Hopen as [t Ht].
  apply Index_Some_prefix in Hclose as Hpost. rewrite str_drop_drop in Hpost.
  replace (idx + (endIdx - idx)) with endIdx in Hpost by lia.
  apply prefix_inv in Hpost as [post Hpost].
  assert (str_drop (idx + 2) value = t) as Ht2.
  { rewrite <-str_drop_drop, Ht. done. }
  rewrite Ht2 in Hname.
  set (content := str_take (endIdx - (idx + 2)) t) in *.
  assert (String.length t = String.length value - (idx + 2)) as Hlen.
  { by rewrite <-Ht2, str_drop_length. }
  assert (String.length content = endIdx - (idx + 2)) as Hcontent.
  { apply str_take_length. lia. }
  assert (t = content +:+ "}}" +:+ post) as Htail.
  { rewrite <-(str_take_drop (endIdx - (idx + 2)) t) at 1. f_equal.
    rewrite <-Ht2, str_drop_drop.
    replace (idx + 2 + (endIdx - (idx + 2))) with endIdx by lia. done. }
  exists (str_take idx value), content, post, varName, schema.
  split_and!; [|  |done..].
  - rewrite <-(str_take_drop idx value) at 1. f_equal. rewrite Ht. f_equal. done.
  - rewrite Ht, Htail in Hclose. rewrite Index_unfold in Hclose. simpl in Hclose.
    destruct (strings.Index (content +:+ _) "}}") as [k|] eqn:Hk; [|done].
    simpl in Hclose. injection Hclose as Hk2.
    apply (Index_app_inv_l _ _ post).
    + rewrite str_app_assoc. simpl. rewrite Hk. f_equal. lia.
    + rewrite str_app_length. simpl. lia.
Qed.

Lemma extractVars_keys_placeholder value configMap variables name :
  extractVars value configMap = Some variables →
  name ∈ dom variables →
  ∃ pre post,
    (value = pre +:+ "{{" +:+ name +:+ "}}" +:+ post ∧
     strings.Index (name +:+ "}}") "}}" = Some (String.length name)) ∨
    (value = pre +:+ "{{" +:+ name +:+ "|" +:+ post ∧
     strings.Index name "}}" = None).
Proof.
  intros Hvars. revert name.
  refine (extractVars_loop_invariant value configMap
            (λ variables, ∀ name, name ∈ dom variables → _) _ 0 ∅ variables _ Hvars).
  - intros start vars start' vars' IH
      (pre & content & post & varName & schema & -> & Hfirst & Hname & ->)
      %extractVars_body_placeholder name.
    rewrite dom_insert_L, elem_of_union, elem_of_singleton. intros [->|?]; [|by apply IH].
    apply Split_head_cases in Hname as [->|[rest ->]].
    + exists pre, post. by left.
    + exists pre, (rest +:+ "}}" +:+ post). right.
      split; [by rewrite !str_app_assoc|].
      destruct (strings.Index varName "}}") as [j|] eqn:Hj; [|done].
      apply Index_bound in Hj as Hb.
      apply (Index_app_l _ _ ("|" +:+ rest +:+ "}}")) in Hj.
      rewrite !str_app_assoc in Hfirst. rewrite Hj in Hfirst.
      injection Hfirst as ->. rewrite !str_app_length in Hb. simpl in Hb. lia.
  - intros name. by rewrite dom_empty_L.
Qed.

(** Against C2 as stated: [y] is a variable of ["{{y|secret}}"], and the
    canonical form ["{y|secret}"] does not contain the token ["{y}"]. *)
Lemma extractVars_name_not_token :
  ∃ variables,
    extractVars "{{y|secret}}" ∅ = Some variables ∧
    "y" ∈ dom variables ∧
    strings.Contains (convertBraces "{{y|secret}}") "{y}" = false.
Proof.
  destruct (extractVars_no_panic "{{y|secret}}" ∅) as [variables Hvars].
  exists variables. split_and!; [done| |reflexivity].
  assert (dom <$> extractVars "{{y|secret}}" ∅ = Some ({["y"]} : gset string)) as Hdom
    by (vm_compute; reflexivity).
  rewrite Hvars in Hdom. injection Hdom as ->. set_solver.
Qed.

(** A name that holds a doubled opening brace is not found in the canonical
    form at all: the first pass of [convertBraces] halves it. *)
Example extractVars_name_with_doubled_brace :
  dom <$> extractVars "{{a{{b}}" ∅ = Some ({["a{{b"]} : gset string) ∧
  convertBraces "{{a{{b}}" = "{a{b}" ∧
  strings.Contains (convertBraces "{{a{{b}}") "a{{b" = false.
Proof. split_and!; vm_compute; reflexivity. Qed.

(** C2, amended: every variable name among the keys of [extractVars value]
    that holds no doubled opening brace occurs in [convertBraces value]
    right after an opening brace and right before the closing brace or
    before the [|] that starts its modifiers: ["{name}"] or ["{name|"] is a
    substring of the canonical form. *)
Theorem extractVars_names_in_canonical value configMap variables name :
  extractVars value configMap = Some variables →
  name ∈ dom variables →
  strings.Contains name "{{" = false →
  strings.Contains (convertBraces value) ("{" +:+ name +:+ "}") = true ∨
  strings.Contains (convertBraces value) ("{" +:+ name +:+ "|") = true.
Proof.
  intros Hvars Hname Hopen.
  assert (strings.Index name "{{" = None) as Hnone.
  { unfold strings.Contains in Hopen. by destruct (strings.Index name "{{"). }
  destruct (extractVars_keys_placeholder _ _ _ _ Hvars Hname)
    as (pre & post & [[-> Hclose]|[-> Hclose]]).
  - left. destruct (convertBraces_token_close pre name post) as (pre' & post' & ->);
      [done..|]. apply Contains_app.
  - right. destruct (convertBraces_token_modifier pre name post)
      as (pre' & post' & ->); [done..|]. apply Contains_app.
Qed.

Lemma extractVars_names_in_canonical_witness :
  strings.Contains (convertBraces "{{x}}-{{y|secret}}") ("{" +:+ "y" +:+ "}") = true ∨
  strings.Contains (convertBraces "{{x}}-{{y|secret}}") ("{" +:+ "y" +:+ "|") = true.
Proof.
  apply (extractVars_names_in_canonical "{{x}}-{{y|secret}}" ∅
           (<["y" := InputSchema.mk false false "string" ""]>
              (<["x" := InputSchema.mk false false "string" ""]> ∅)) "y").
  - vm_compute. reflexivity.
  - apply (bool_decide_unpack _). vm_compute. exact I.
  - reflexivity.
Defined.

(** * What [extractVars] records for a variable *)

Lemma extractVars_body_schema value configMap start variables start' variables' :
  extractVars_body value configMap start variables = Some (Continue start' variables') →
  ∃ varName, variables' = <[varName := extractVars_schema configMap varName]> variables.
Proof.
  unfold extractVars_body.
  destruct (slice_from value start) as [tail|]; [simpl|done].
  destruct (strings.Index tail "{{") as [i|]; [|done].
  destruct (slice_from value (i + start)) as [tail2|]; [simpl|done].
  destruct (strings.Index tail2 "}}") as [j|]; [|done].
  destruct (slice value _ _) as [varContent|]; [simpl|done].
  destruct (_ !! 0) as [varName|]; [simpl|done].
  intros [= _ <-]. exists varName. unfold extractVars_schema.
  destruct (configMap !! varName) as [configProp|]; [|done].
  by destruct (configProp !! "description") as [[]|].
Qed.

(** X1: every variable [extractVars] returns is a plain string variable,
    neither secret nor required, described by the ["description"] string of
    the config index entry that bears exactly its name, and by the empty
    string when there is no such entry or its description is not a
    string. *)
Theorem extractVars_variable_schema value configMap variables name schema :
  extractVars value configMap = Some variables →
  variables !! name = Some schema →
  InputSchema.IsSecret schema = false ∧
  InputSchema.IsRequired schema = false ∧
  InputSchema.Format schema = "string" ∧
  InputSchema.Description schema =
    match configMap !! name with
    | Some configProp =>
        match configProp !! "description" with
        | Some (AString desc) => desc
        | _ => ""
        end
    | None => ""
    end.
Proof.
  intros Hvars Hname.
  assert (schema = extractVars_schema configMap name) as ->.
  { revert name schema Hname.
    refine (extractVars_loop_invariant value configMap
              (λ variables, ∀ name schema, variables !! name = Some schema →
                 schema = extractVars_schema configMap name) _ 0 ∅ variables _ Hvars).
    - intros start vars start' vars' IH [varName ->]%extractVars_body_schema name schema.
      destruct (decide (varName = name)) as [->|Hne].
      + rewrite lookup_insert_eq. by intros [= <-].
      + rewrite lookup_insert_ne by done. apply IH.
    - intros name schema. by rewrite lookup_empty. }
  unfold extractVars_schema.
  destruct (configMap !! name) as [configProp|]; [|done].
  by destruct (configProp !! "description") as [[]|].
Qed.

Lemma extractVars_variable_schema_witness :
  InputSchema.IsSecret (InputSchema.mk false false "string" "Directory to serve") = false ∧
  InputSchema.IsRequired (InputSchema.mk false false "string" "Directory to serve") = false ∧
  InputSchema.Format (InputSchema.mk false false "string" "Directory to serve") = "string" ∧
  InputSchema.Description (InputSchema.mk false false "string" "Directory to serve") =
    match ({[ "fs.path" := {[ "description" := AString "Directory to serve" ]} ]}
             : gmap string (gmap string Any)) !! "fs.path" with
    | Some configProp =>
        match configProp !! "description" with
        | Some (AString desc) => desc
        | _ => ""
        end
    | None => ""
    end.
Proof.
  apply (extractVars_variable_schema "{{fs.path|volume}}:/data"
           {[ "fs.path" := {[ "description" := AString "Directory to serve" ]} ]}
           {[ "fs.path" := InputSchema.mk false false "string" "Directory to serve" ]}
           "fs.path").
  - vm_compute. reflexivity.
  - vm_compute. reflexivity.
Defined.

(** * Names hold no separator *)

Lemma Index_None_app_l s sub u :
  strings.Index (s +:+ u) sub = None → strings.Index s sub = None.
Proof.
  intros Hnone. destruct (strings.Index s sub) as [i|] eqn:Hi; [|done].
  apply (Index_app_l _ _ u) in Hi. congruence.
Qed.

Lemma Index_first_at_end s sub :
  sub ≠ "" →
  strings.Index (s +:+ sub) sub = Some (String.length s) →
  strings.Index s sub = None.
Proof.
  intros Hsub Hfirst. destruct (strings.Index s sub) as [i|] eqn:Hi; [|done].
  apply Index_bound in Hi as Hb. apply (Index_app_l _ _ sub) in Hi.
  rewrite Hi in Hfirst. injection Hfirst as ->.
  destruct sub; [done|]. simpl in Hb. lia.
Qed.

(** The first piece of [Split] holds no separator. *)
Lemma Split_head_no_sep s sep name :
  sep ≠ "" →
  strings.Split s sep !! 0 = Some name →
  strings.Index name sep = None.
Proof.
  intros Hsep. unfold strings.Split.
  assert (strings.Index "" sep = None) as Hempty.
  { rewrite Index_unfold. by destruct sep. }
  destruct (String.length s) as [|n] eqn:Hlen; simpl.
  { intros [= <-]. by destruct s. }
  destruct (strings.Index s sep) as [m|] eqn:Hm; simpl; intros [= <-]; [|done].
  destruct (strings.Index (str_take m s) sep) as [j|] eqn:Hj; [|done].
  apply Index_bound in Hj as Hb. apply Index_bound in Hm as Hmb.
  apply (Index_app_l _ _ (str_drop m s)) in Hj. rewrite str_take_drop in Hj.
  rewrite Hm in Hj. injection Hj as ->.
  rewrite str_take_length in Hb by lia. destruct sep; [done|]. simpl in Hb. lia.
Qed.

(** X2: no variable name [extractVars] returns holds the modifier separator
    ["|"] or a closing token ["}}"]: a name stops at the first of them. *)
Theorem extractVars_names_hold_no_separator value configMap variables name :
  extractVars value configMap = Some variables →
  name ∈ dom variables →
  strings.Contains name "|" = false ∧ strings.Contains name "}}" = false.
Proof.
  intros Hvars. revert name. unfold strings.Contains.
  refine (extractVars_loop_invariant value configMap
            (λ variables, ∀ name, name ∈ dom variables → _) _ 0 ∅ variables _ Hvars).
  - intros start vars start' vars' IH
      (pre & content & post & varName & schema & -> & Hfirst & Hname & ->)
      %extractVars_body_placeholder name.
    rewrite dom_insert_L, elem_of_union, elem_of_singleton. intros [->|?]; [|by apply IH].
    rewrite (Split_head_no_sep content "|" varName ltac:(done) Hname). split; [done|].
    apply Index_first_at_end in Hfirst; [|done].
    apply Split_head_cases in Hname as [->|[rest ->]]; [by rewrite Hfirst|].
    by rewrite (Index_None_app_l _ _ _ Hfirst).
  - intros name. by rewrite dom_empty_L.
Qed.

Lemma extractVars_names_hold_no_separator_witness :
  strings.Contains "fs.path" "|" = false ∧ strings.Contains "fs.path" "}}" = false.
Proof.
  apply (extractVars_names_hold_no_separator "{{fs.path|volume|into}}:/data" ∅
           {[ "fs.path" := InputSchema.mk false false "string" "" ]} "fs.path").
  - vm_compute. reflexivity.
  - apply (bool_decide_unpack _). vm_compute. exact I.
Defined.

(** * [convertBraces] only shortens *)

Lemma ReplaceAll_length s old new :
  old ≠ "" → String.length new ≤ String.length old →
  String.length (strings.ReplaceAll s old new) ≤ String.length s.
Proof.
  intros Hold Hnew. remember (String.length s) as n eqn:Hn. revert s Hn.
  induction n as [n IH] using lt_wf_ind. intros s ->.
  rewrite ReplaceAll_Index by done.
  destruct (strings.Index s old) as [j|] eqn:Hj; [|done].
  apply Index_bound in Hj as Hb.
  assert (0 < String.length old) by (destruct old; [done|simpl; lia]).
  rewrite !str_app_length, str_take_length by lia.
  pose proof (IH (String.length (str_drop (j + String.length old) s))
                ltac:(rewrite str_drop_length; lia) _ eq_refl) as Hrest.
  rewrite str_drop_length in Hrest. lia.
Qed.

Lemma ReplaceAll_length_lt s old new :
  String.length new < String.length old →
  strings.Contains s old = true →
  String.length (strings.ReplaceAll s old new) < String.length s.
Proof.
  intros Hnew. unfold strings.Contains.
  assert (old ≠ "") as Hold by (destruct old; [simpl in Hnew; lia|done]).
  rewrite ReplaceAll_Index by done.
  destruct (strings.Index s old) as [j|] eqn:Hj; [intros _|done].
  apply Index_bound in Hj as Hb.
  rewrite !str_app_length, str_take_length by lia.
  pose proof (ReplaceAll_length (str_drop (j + String.length old) s) old new Hold
                ltac:(lia)) as Hrest.
  rewrite str_drop_length in Hrest. lia.
Qed.

(** X4: [convertBraces] never lengthens a value, and the values it leaves
    unchanged are exactly those that contain neither ["{{"] nor ["}}"]:
    any doubled brace makes the canonical form strictly shorter. *)
Theorem convertBraces_shortens value :
  String.length (convertBraces value) ≤ String.length value ∧
  (convertBraces value = value ↔
   strings.Contains value "{{" = false ∧ strings.Contains value "}}" = false).
Proof.
  unfold convertBraces.
  pose proof (ReplaceAll_length value "{{" "{" ltac:(done) ltac:(simpl; lia)) as Hopen.
  pose proof (ReplaceAll_length (strings.ReplaceAll value "{{" "{") "}}" "}"
                ltac:(done) ltac:(simpl; lia)) as Hclose.
  split; [lia|]. split.
  - intros Hfix.
    destruct (strings.Contains value "{{") eqn:Hc1.
    { pose proof (ReplaceAll_length_lt value "{{" "{" ltac:(simpl; lia) Hc1).
      rewrite Hfix in Hclose. lia. }
    rewrite (ReplaceAll_absent value "{{") in Hfix by done.
    destruct (strings.Contains value "}}") eqn:Hc2; [|done].
    pose proof (ReplaceAll_length_lt value "}}" "}" ltac:(simpl; lia) Hc2) as Hlt.
    rewrite Hfix in Hlt. lia.
  - intros [Hc1 Hc2]. rewrite (ReplaceAll_absent value "{{") by done.
    by apply ReplaceAll_absent.
Qed.

Lemma convertBraces_shortens_witness :
  strings.Contains "/data/{x}:ro" "{{" = false ∧
  strings.Contains "/data/{x}:ro" "}}" = false.
Proof. apply (proj1 (proj2 (convertBraces_shortens "/data/{x}:ro"))). reflexivity. Defined.

(** * Lookups in the config index *)

Lemma buildConfigMap_properties_other cfgName acc (l : list (string * Any)) fullKey :
  (∀ key propMap, (key, AMap propMap) ∈ l → cfgName +:+ "." +:+ key ≠ fullKey) →
  foldl (buildConfigMap_property cfgName) acc l !! fullKey = acc !! fullKey.
Proof.
  revert acc. induction l as [|[key value] l IH]; intros acc Hl; simpl; [done|].
  rewrite IH by (intros k m ?; apply (Hl k m); by right).
  unfold buildConfigMap_property. simpl. destruct value as [| | | | |m| | |]; try done.
  apply lookup_insert_ne. apply (Hl key m). by left.
Qed.

Lemma buildConfigMap_properties_found cfgName acc (l : list (string * Any)) key propMap :
  NoDup (l.*1) → (key, AMap propMap) ∈ l →
  foldl (buildConfigMap_property cfgName) acc l !! (cfgName +:+ "." +:+ key)
  = Some propMap.
Proof.
  revert acc. induction l as [|[key' value] l IH]; intros acc Hnodup Hin; simpl.
  { by apply elem_of_nil in Hin. }
  apply NoDup_cons in Hnodup as [Hfresh Hnodup].
  apply elem_of_cons in Hin as [[= <- <-]|Hin]; [|by apply IH].
  rewrite buildConfigMap_properties_other.
  - unfold buildConfigMap_property. simpl. apply lookup_insert_eq.
  - intros key' propMap' Hin' Heq%(inj (String.app cfgName)).
    apply (inj (String.app ".")) in Heq as ->.
    apply Hfresh. apply list_elem_of_fmap. by exists (key, AMap propMap').
Qed.

Lemma buildConfigMap_loop_app ord i configs1 configs2 result :
  buildConfigMap_loop ord i (configs1 ++ configs2) result
  = buildConfigMap_loop ord (i + length configs1) configs2
      (buildConfigMap_loop ord i configs1 result).
Proof.
  revert i result. induction configs1 as [|cfg configs1 IH]; intros i result; simpl.
  - by rewrite Nat.add_0_r.
  - rewrite IH. f_equal. lia.
Qed.

Lemma buildConfigMap_loop_other ord i configs result fullKey :
  (∀ cfg key propMap,
     cfg ∈ configs → Config.Properties cfg !! key = Some (AMap propMap) →
     Config.Name cfg +:+ "." +:+ key ≠ fullKey) →
  buildConfigMap_loop ord i configs result !! fullKey = result !! fullKey.
Proof.
  revert i result. induction configs as [|cfg configs IH]; intros i result Hother; simpl.
  { done. }
  rewrite IH by (intros; eapply Hother; [by right|done]).
  apply buildConfigMap_properties_other. intros key propMap Hin.
  apply (Hother cfg key propMap); [by left|].
  rewrite range_properties_perm in Hin. by apply elem_of_map_to_list in Hin.
Qed.

(** X5: the index answers a dotted key [block.property] with the object of
    the last config block, in the order of the list, that writes this key:
    a later block overwrites what an earlier one stored, and blocks that do
    not write the key leave it alone. *)
Theorem buildConfigMap_last_write_wins ord before cfg after key propMap :
  Config.Properties cfg !! key = Some (AMap propMap) →
  (∀ cfg' key' propMap',
     cfg' ∈ after → Config.Properties cfg' !! key' = Some (AMap propMap') →
     Config.Name cfg' +:+ "." +:+ key' ≠ Config.Name cfg +:+ "." +:+ key) →
  buildConfigMap ord (before ++ cfg :: after) !! (Config.Name cfg +:+ "." +:+ key)
  = Some propMap.
Proof.
  intros Hkey Hafter. unfold buildConfigMap.
  rewrite buildConfigMap_loop_app. simpl.
  rewrite buildConfigMap_loop_other by done.
  apply buildConfigMap_properties_found.
  - rewrite range_properties_perm. apply NoDup_fst_map_to_list.
  - rewrite range_properties_perm. by apply elem_of_map_to_list.
Qed.

Lemma buildConfigMap_last_write_wins_witness :
  buildConfigMap sorted_order
    ([Config.mk "fs" "" "object" {[ "path" := AMap {[ "description" := AString "old" ]} ]} []]
     ++ Config.mk "fs" "" "object" {[ "path" := AMap {[ "description" := AString "new" ]} ]} []
     :: [Config.mk "net" "" "object" {[ "port" := AFloat64 8080%float ]} []])
    !! ("fs" +:+ "." +:+ "path")
  = Some {[ "description" := AString "new" ]}.
Proof.
  apply (buildConfigMap_last_write_wins sorted_order
           [Config.mk "fs" "" "object"
              {[ "path" := AMap {[ "description" := AString "old" ]} ]} []]
           (Config.mk "fs" "" "object"
              {[ "path" := AMap {[ "description" := AString "new" ]} ]} [])
           [Config.mk "net" "" "object" {[ "port" := AFloat64 8080%float ]} []]
           "path").
  - vm_compute. reflexivity.
  - intros cfg' key' propMap' ->%list_elem_of_singleton. simpl.
    intros Hprop _. apply lookup_singleton_Some in Hprop as [_ ?]. discriminate.
Defined.

(** * The bodies of the loops of [transformEntry] *)

Lemma extractVars_no_open value configMap :
  strings.Contains value "{{" = false → extractVars value configMap = Some ∅.
Proof.
  intros Hopen. unfold extractVars. rewrite extractVars_loop_eq.
  unfold extractVars_body. rewrite slice_from_le by lia.
  cbn [str_drop mbind option_bind]. unfold strings.Contains in Hopen.
  by destruct (strings.Index value "{{").
Qed.

(** The guard [strings.Contains(value, "{{")] does not change what is
    attached: the variables are those [extractVars] finds. *)
Lemma transformEntry_env_variables configMap env :
  ∃ variables,
    extractVars (EnvVar.Value env) configMap = Some variables ∧
    transformEntry_env configMap env
    = Some (KeyValueInput.mk (EnvVar.Name env) (convertBraces (EnvVar.Value env))
              "" false false false variables).
Proof.
  unfold transformEntry_env.
  destruct (strings.Contains (EnvVar.Value env) "{{") eqn:Hopen.
  - destruct (extractVars_no_panic (EnvVar.Value env) configMap) as [variables Hvars].
    exists variables. split; [done|]. rewrite Hvars. simpl. case_decide as Hsize; [done|].
    assert (variables = ∅) as -> by (apply map_size_empty_iff; lia). done.
  - exists ∅. split; [by apply extractVars_no_open|done].
Qed.

Lemma transformEntry_runtime_variables configMap flag value :
  ∃ variables,
    extractVars value configMap = Some variables ∧
    transformEntry_runtime configMap flag value
    = Some (Argument.mk "named" flag (convertBraces value) false false false variables).
Proof.
  unfold transformEntry_runtime.
  destruct (strings.Contains value "{{") eqn:Hopen.
  - destruct (extractVars_no_panic value configMap) as [variables Hvars].
    exists variables. split; [done|]. by rewrite Hvars.
  - exists ∅. split; [by apply extractVars_no_open|done].
Qed.

Lemma mapM_lookup {A B} (f : A → option B) l k i x :
  mapM f l = Some k → l !! i = Some x → ∃ y, k !! i = Some y ∧ f x = Some y.
Proof.
  intros Hk%mapM_Some_1 Hx. by apply (Forall2_lookup_l _ _ _ _ _ Hk Hx).
Qed.

(** X6: in the package of an entry that is not of type ["remote"], the
    [i]-th environment variable of the entry becomes the [i]-th descriptor,
    under the same name, with the canonical form of its value and exactly
    the variables [extractVars] finds in the value under the entry's config
    index; it is never marked secret or required, and the package holds one
    descriptor per environment variable and per secret. *)
Theorem transformEntry_env_descriptor ord name entry i env :
  DockerCatalogEntry.Type_ entry ≠ "remote" →
  DockerCatalogEntry.Env entry !! i = Some env →
  ∃ server pkg variables,
    transformEntry ord name entry = Some server ∧
    RegistryServer.Packages server = [pkg] ∧
    extractVars (EnvVar.Value env) (buildConfigMap ord (DockerCatalogEntry.Config entry))
      = Some variables ∧
    Package.EnvironmentVariables pkg !! i
      = Some (KeyValueInput.mk (EnvVar.Name env) (convertBraces (EnvVar.Value env))
                "" false false false variables) ∧
    length (Package.EnvironmentVariables pkg)
      = length (DockerCatalogEntry.Env entry) + length (DockerCatalogEntry.Secrets entry).
Proof.
  intros Htype Henv.
  destruct (transformEntry_package ord name entry)
    as (envs & ? & ? & ? & Henvs & _ & _ & _ & ->).
  { by intros [? _]. }
  destruct (mapM_lookup _ _ _ _ _ Henvs Henv) as (kv & Hkv & Htr).
  destruct (transformEntry_env_variables
              (buildConfigMap ord (DockerCatalogEntry.Config entry)) env)
    as (variables & Hvars & Heq).
  rewrite Heq in Htr. injection Htr as <-.
  eexists _, _, variables. split_and!; try done; simpl.
  - by rewrite lookup_app_l by (by eapply lookup_lt_Some).
  - rewrite length_app, length_fmap. by rewrite (length_mapM _ _ _ Henvs).
Qed.

Lemma transformEntry_env_descriptor_witness :
  ∃ server pkg variables,
    transformEntry sorted_order "svc"
      (with_package_fields (sample_entry "" "server" [] None) "img" []
         [EnvVar.mk "ROOT" "/srv/{{fs.path}}"] [] [] [] "") = Some server ∧
    RegistryServer.Packages server = [pkg] ∧
    extractVars "/srv/{{fs.path}}" (buildConfigMap sorted_order []) = Some variables ∧
    Package.EnvironmentVariables pkg !! 0
      = Some (KeyValueInput.mk "ROOT" (convertBraces "/srv/{{fs.path}}")
                "" false false false variables) ∧
    length (Package.EnvironmentVariables pkg) = 1 + 0.
Proof.
  apply (transformEntry_env_descriptor sorted_order "svc"
           (with_package_fields (sample_entry "" "server" [] None) "img" []
              [EnvVar.mk "ROOT" "/srv/{{fs.path}}"] [] [] [] "")
           0 (EnvVar.mk "ROOT" "/srv/{{fs.path}}")).
  - simpl. discriminate.
  - reflexivity.
Defined.

(** * Command tokens *)

Lemma Index_take_None s sep m :
  sep ≠ "" → strings.Index s sep = Some m → strings.Index (str_take m s) sep = None.
Proof.
  intros Hsep Hm.
  destruct (strings.Index (str_take m s) sep) as [j|] eqn:Hj; [|done].
  apply Index_bound in Hj as Hb. apply Index_bound in Hm as Hmb.
  apply (Index_app_l _ _ (str_drop m s)) in Hj. rewrite str_take_drop in Hj.
  rewrite Hm in Hj. injection Hj as ->.
  rewrite str_take_length in Hb by lia. destruct sep; [done|]. simpl in Hb. lia.
Qed.

Lemma Index_cut s sep m :
  strings.Index s sep = Some m →
  s = str_take m s +:+ sep +:+ str_drop (m + String.length sep) s.
Proof.
  intros Hm. apply Index_Some_prefix, prefix_inv in Hm as [rest Hrest].
  rewrite <-(str_take_drop m s) at 1. f_equal.
  rewrite <-str_drop_drop, Hrest. by rewrite str_drop_app_length.
Qed.

Lemma SplitN_two_pieces s sep :
  strings.SplitN s sep 2 =
  match strings.Index s sep with
  | None => [s]
  | Some m => [str_take m s; str_drop (m + String.length sep) s]
  end.
Proof.
  unfold strings.SplitN. rewrite decide_False, decide_False by lia.
  change (Z.to_nat (2 - 1)) with 1. simpl. by destruct (strings.Index s sep).
Qed.

Lemma transformEntry_command_cases configMap cmd :
  ∃ arg,
    transformEntry_command configMap cmd = Some arg ∧
    (strings.HasPrefix cmd "--" = false →
     arg = Argument.mk "positional" "" cmd false false false ∅) ∧
    (strings.HasPrefix cmd "--" = true → strings.Contains cmd "=" = false →
     arg = Argument.mk "named" cmd "" false false false ∅) ∧
    (strings.HasPrefix cmd "--" = true → strings.Contains cmd "=" = true →
     ∃ raw variables,
       cmd = Argument.Name arg +:+ "=" +:+ raw ∧
       strings.Contains (Argument.Name arg) "=" = false ∧
       extractVars raw configMap = Some variables ∧
       arg = Argument.mk "named" (Argument.Name arg) (convertBraces raw)
               false false false variables).
Proof.
  unfold transformEntry_command.
  destruct (strings.HasPrefix cmd "--") eqn:Hprefix.
  - rewrite SplitN_two_pieces. unfold strings.Contains at 1 2.
    destruct (strings.Index cmd "=") as [m|] eqn:Hm; simpl.
    + set (raw := str_drop (m + 1) cmd).
      assert (cmd = str_take m cmd +:+ "=" +:+ raw) as Hcut
        by apply (Index_cut cmd "=" m Hm).
      pose proof (Index_take_None cmd "=" m ltac:(done) Hm) as Hflag.
      destruct (strings.Index raw "{{") as [k|] eqn:Hopen.
      * destruct (extractVars_no_panic raw configMap) as [variables Hvars].
        rewrite Hvars. simpl. eexists. split_and!; [done..|]. intros _ _.
        exists raw, variables. simpl. unfold strings.Contains. by rewrite Hflag.
      * eexists. split_and!; [done..|]. intros _ _.
        exists raw, ∅. simpl. unfold strings.Contains at 1. rewrite Hflag.
        split_and!; try done.
        apply extractVars_no_open. unfold strings.Contains. by rewrite Hopen.
    + exists (Argument.mk "named" cmd "" false false false ∅).
      split_and!; [done|done|done|]. unfold strings.Contains. rewrite Hm. by intros _ [=].
  - exists (Argument.mk "positional" "" cmd false false false ∅).
    split_and!; [done|done|..]; by intros [=].
Qed.

(** X7: in the package of an entry that is not of type ["remote"], the
    [i]-th command token becomes the [i]-th package argument.  A token that
    does not begin with ["--"] is positional and kept byte for byte, its
    placeholders neither canonicalized nor extracted.  A token that begins
    with ["--"] is named: without ["="] it is the name and the value is
    empty; with one, the token is the name, ["="] and the raw value, the
    name holds no ["="], the value is the canonical form of the raw value and
    the variables are those [extractVars] finds in it. *)
Theorem transformEntry_command_argument ord name entry i cmd :
  DockerCatalogEntry.Type_ entry ≠ "remote" →
  DockerCatalogEntry.Command entry !! i = Some cmd →
  ∃ server pkg arg,
    transformEntry ord name entry = Some server ∧
    RegistryServer.Packages server = [pkg] ∧
    length (Package.PackageArguments pkg) = length (DockerCatalogEntry.Command entry) ∧
    Package.PackageArguments pkg !! i = Some arg ∧
    (strings.HasPrefix cmd "--" = false →
     arg = Argument.mk "positional" "" cmd false false false ∅) ∧
    (strings.HasPrefix cmd "--" = true → strings.Contains cmd "=" = false →
     arg = Argument.mk "named" cmd "" false false false ∅) ∧
    (strings.HasPrefix cmd "--" = true → strings.Contains cmd "=" = true →
     ∃ raw variables,
       cmd = Argument.Name arg +:+ "=" +:+ raw ∧
       strings.Contains (Argument.Name arg) "=" = false ∧
       extractVars raw (buildConfigMap ord (DockerCatalogEntry.Config entry))
         = Some variables ∧
       arg = Argument.mk "named" (Argument.Name arg) (convertBraces raw)
               false false false variables).
Proof.
  intros Htype Hcmd.
  destruct (transformEntry_package ord name entry)
    as (? & args & ? & ? & _ & Hargs & _ & _ & ->).
  { by intros [? _]. }
  destruct (mapM_lookup _ _ _ _ _ Hargs Hcmd) as (arg & Harg & Htr).
  destruct (transformEntry_command_cases
              (buildConfigMap ord (DockerCatalogEntry.Config entry)) cmd)
    as (arg' & Heq & Hcases).
  rewrite Heq in Htr. injection Htr as ->.
  eexists _, _, arg. split_and!; try done; simpl.
  - by rewrite (length_mapM _ _ _ Hargs).
  - apply Hcases.
  - apply Hcases.
  - apply Hcases.
Qed.

Lemma transformEntry_command_argument_witness :
  ∃ server pkg arg,
    transformEntry sorted_order "svc"
      (with_package_fields (sample_entry "" "server" [] None) "img" [] []
         ["serve"; "--root={{fs.path}}"] [] [] "") = Some server ∧
    RegistryServer.Packages server = [pkg] ∧
    Package.PackageArguments pkg !! 1 = Some arg ∧
    ∃ raw variables,
      "--root={{fs.path}}" = Argument.Name arg +:+ "=" +:+ raw ∧
      strings.Contains (Argument.Name arg) "=" = false ∧
      extractVars raw (buildConfigMap sorted_order []) = Some variables ∧
      arg = Argument.mk "named" (Argument.Name arg) (convertBraces raw)
              false false false variables.
Proof.
  destruct (transformEntry_command_argument sorted_order "svc"
              (with_package_fields (sample_entry "" "server" [] None) "img" [] []
                 ["serve"; "--root={{fs.path}}"] [] [] "")
              1 "--root={{fs.path}}")
    as (server & pkg & arg & Hserver & Hpkg & _ & Harg & _ & _ & Hnamed).
  - simpl. discriminate.
  - reflexivity.
  - exists server, pkg, arg. split_and!; [exact Hserver|exact Hpkg|exact Harg|].
    apply Hnamed; reflexivity.
Defined.

(** * Runtime arguments *)

(** X8: in the package of an entry that is not of type ["remote"], the
    runtime arguments are one named [-v] argument per volume, in order,
    followed by one named [-u] argument when the user is not empty; each
    carries the canonical form of the volume or user and the variables
    [extractVars] finds in it.  The runtime hint is ["docker"] exactly when
    the entry has a volume or a user, and empty otherwise. *)
Theorem transformEntry_runtime_arguments ord name entry :
  DockerCatalogEntry.Type_ entry ≠ "remote" →
  ∃ server pkg,
    transformEntry ord name entry = Some server ∧
    RegistryServer.Packages server = [pkg] ∧
    length (Package.RuntimeArguments pkg)
      = length (DockerCatalogEntry.Volumes entry)
        + (if decide (DockerCatalogEntry.User entry = "") then 0 else 1) ∧
    (∀ i vol,
       DockerCatalogEntry.Volumes entry !! i = Some vol →
       ∃ variables,
         extractVars vol (buildConfigMap ord (DockerCatalogEntry.Config entry))
           = Some variables ∧
         Package.RuntimeArguments pkg !! i
           = Some (Argument.mk "named" "-v" (convertBraces vol)
                     false false false variables)) ∧
    (DockerCatalogEntry.User entry ≠ "" →
     ∃ variables,
       extractVars (DockerCatalogEntry.User entry)
         (buildConfigMap ord (DockerCatalogEntry.Config entry)) = Some variables ∧
       Package.RuntimeArguments pkg !! length (DockerCatalogEntry.Volumes entry)
         = Some (Argument.mk "named" "-u" (convertBraces (DockerCatalogEntry.User entry))
                   false false false variables)) ∧
    (Package.RuntimeHint pkg = "docker" ↔
     DockerCatalogEntry.Volumes entry ≠ [] ∨ DockerCatalogEntry.User entry ≠ "") ∧
    (Package.RuntimeHint pkg = "" ↔
     DockerCatalogEntry.Volumes entry = [] ∧ DockerCatalogEntry.User entry = "").
Proof.
  intros Htype.
  destruct (transformEntry_package ord name entry)
    as (? & ? & volumes & user & _ & _ & Hvolumes & Huser & ->).
  { by intros [? _]. }
  set (configMap := buildConfigMap ord (DockerCatalogEntry.Config entry)) in *.
  pose proof (length_mapM _ _ _ Hvolumes) as Hlen.
  assert (length user = (if decide (DockerCatalogEntry.User entry = "") then 0 else 1) ∧
          (DockerCatalogEntry.User entry ≠ "" →
           ∃ variables,
             extractVars (DockerCatalogEntry.User entry) configMap = Some variables ∧
             user = [Argument.mk "named" "-u"
                       (convertBraces (DockerCatalogEntry.User entry))
                       false false false variables])) as [Hulen Hu].
  { destruct (decide (DockerCatalogEntry.User entry = "")) as [Hempty|Hne].
    - rewrite decide_False in Huser by (by intros ?). injection Huser as <-. done.
    - rewrite decide_True in Huser by done.
      destruct (transformEntry_runtime_variables configMap "-u"
                  (DockerCatalogEntry.User entry)) as (variables & Hvars & Heq).
      rewrite Heq in Huser. injection Huser as <-. split; [done|]. intros _.
      by exists variables. }
  eexists _, _. split_and!; try done; simpl.
  - rewrite length_app. lia.
  - intros i vol Hvol.
    destruct (mapM_lookup _ _ _ _ _ Hvolumes Hvol) as (arg & Harg & Htr).
    destruct (transformEntry_runtime_variables configMap "-v" vol)
      as (variables & Hvars & Heq).
    rewrite Heq in Htr. injection Htr as <-. exists variables. split; [done|].
    by rewrite lookup_app_l by (by eapply lookup_lt_Some).
  - intros Hne. destruct (Hu Hne) as (variables & Hvars & ->).
    exists variables. split; [done|].
    by rewrite Hlen, lookup_app_r, Nat.sub_diag by lia.
  - rewrite length_app, <-Hlen, Hulen.
    destruct (DockerCatalogEntry.Volumes entry) as [|vol vols],
      (decide (DockerCatalogEntry.User entry = "")) as [Hempty|Hne]; simpl.
    + split; [done|]. by intros [?|?].
    + split; [by right|done].
    + split; [by left|done].
    + split; [by left|done].
  - rewrite length_app, <-Hlen, Hulen.
    destruct (DockerCatalogEntry.Volumes entry) as [|vol vols],
      (decide (DockerCatalogEntry.User entry = "")) as [Hempty|Hne]; simpl.
    + done.
    + split; [done|]. by intros [_ ?].
    + split; [done|]. by intros [? _].
    + split; [done|]. by intros [? _].
Qed.

Lemma transformEntry_runtime_arguments_witness :
  ∃ server pkg,
    transformEntry sorted_order "svc"
      (with_package_fields (sample_entry "" "server" [] None) "img" [] [] []
         ["{{fs.path}}:/data"] [] "1000:1000") = Some server ∧
    RegistryServer.Packages server = [pkg] ∧
    Package.RuntimeHint pkg = "docker" ∧
    ∃ variables,
      extractVars "1000:1000" (buildConfigMap sorted_order []) = Some variables ∧
      Package.RuntimeArguments pkg !! 1
        = Some (Argument.mk "named" "-u" (convertBraces "1000:1000")
                  false false false variables).
Proof.
  destruct (transformEntry_runtime_arguments sorted_order "svc"
              (with_package_fields (sample_entry "" "server" [] None) "img" [] [] []
                 ["{{fs.path}}:/data"] [] "1000:1000"))
    as (server & pkg & Hserver & Hpkg & _ & _ & Huser & Hhint & _).
  - simpl. discriminate.
  - exists server, pkg. split_and!; [exact Hserver|exact Hpkg| |].
    + apply Hhint. left. simpl. discriminate.
    + apply Huser. simpl. discriminate.
Defined.

(** * The repository reference *)

(** X9: the descriptor has a repository reference exactly when the entry
    takes the package branch and names an upstream.  Its URL is the
    upstream, unchanged; its source is ["github"] when the upstream
    contains ["github.com"] (also when it contains ["gitlab.com"] as well),
    ["gitlab"] when it contains only ["gitlab.com"], and empty otherwise.
    A remote entry gets no repository reference even with an upstream. *)
Theorem transformEntry_repository_reference ord name entry :
  ∃ server,
    transformEntry ord name entry = Some server ∧
    (RegistryServer.Repository server = None ↔
     (DockerCatalogEntry.Type_ entry = "remote" ∧
      is_Some (DockerCatalogEntry.Remote entry)) ∨
     DockerCatalogEntry.Upstream entry = "") ∧
    (∀ repo,
       RegistryServer.Repository server = Some repo →
       Repository.URL repo = DockerCatalogEntry.Upstream entry ∧
       Repository.Subfolder repo = "" ∧
       Repository.Source repo =
         if strings.Contains (DockerCatalogEntry.Upstream entry) "github.com"
         then "github"
         else if strings.Contains (DockerCatalogEntry.Upstream entry) "gitlab.com"
              then "gitlab" else "").
Proof.
  destruct (remote_branch_dec entry) as [[Htype [remote Hremote]]|Hbranch].
  - eexists. split; [by apply transformEntry_remote|]. simpl. split; [|done].
    split; [|done]. intros _. left. by rewrite Hremote.
  - destruct (transformEntry_package ord name entry Hbranch)
      as (? & ? & ? & ? & _ & _ & _ & _ & ->).
    eexists. split; [done|]. simpl. unfold transformEntry_repository.
    destruct (decide (DockerCatalogEntry.Upstream entry ≠ "")) as [Hup|Hup].
    + split.
      * split; [done|]. by intros [?|?].
      * intros repo [= <-]. done.
    + apply dec_stable in Hup. split; [|done]. split; [|done]. intros _. by right.
Qed.

Lemma transformEntry_repository_reference_witness :
  ∃ server repo,
    transformEntry sorted_order "svc"
      (DockerCatalogEntry.mk "" "" "server" "" "img" "" "" "" ""
         "https://github.com/acme/gitlab.com-mirror" "" [] 0 ∅
         (Metadata.mk 0 0 0 "" [] "" "") [] [] [] [] [] None "" false [] None)
      = Some server ∧
    RegistryServer.Repository server = Some repo ∧
    Repository.URL repo = "https://github.com/acme/gitlab.com-mirror" ∧
    Repository.Source repo = "github".
Proof.
  destruct (transformEntry_repository_reference sorted_order "svc"
              (DockerCatalogEntry.mk "" "" "server" "" "img" "" "" "" ""
                 "https://github.com/acme/gitlab.com-mirror" "" [] 0 ∅
                 (Metadata.mk 0 0 0 "" [] "" "") [] [] [] [] [] None "" false [] None))
    as (server & Hserver & Hnone & Hrepo).
  destruct (RegistryServer.Repository server) as [repo|] eqn:Hr.
  - exists server, repo. destruct (Hrepo repo eq_refl) as (Hurl & _ & Hsource).
    split_and!; [exact Hserver|exact Hr|exact Hurl|exact Hsource].
  - exfalso. destruct (proj1 Hnone eq_refl) as [[Htype _]|Hup]; discriminate.
Defined.

(** * Names in the batch output *)

Lemma transformed_names ord (entries : list (string * DockerCatalogEntry.t)) servers :
  Forall2 (λ (ne : string * DockerCatalogEntry.t) server,
             transformEntry ord ne.1 ne.2 = Some server) entries servers →
  RegistryServer.Name <$> servers = (λ key, "com.docker.mcp/" +:+ key) <$> entries.*1.
Proof.
  induction 1 as [|[key entry] server entries servers Htr _ IH]; [done|].
  rewrite !fmap_cons, IH. f_equal. by apply (transformEntry_Name ord key entry).
Qed.

(** X10: the servers [main] collects bear pairwise distinct names, each the
    namespace ["com.docker.mcp/"] followed by the registry key of an entry
    whose type is not ["remote"]. *)
Theorem main_servers_distinct_names ord catalog :
  ∃ servers,
    main_servers ord catalog = Some servers ∧
    NoDup (RegistryServer.Name <$> servers) ∧
    (∀ server, server ∈ servers →
       ∃ key entry,
         DockerCatalog.Registry catalog !! key = Some entry ∧
         DockerCatalogEntry.Type_ entry ≠ "remote" ∧
         RegistryServer.Name server = "com.docker.mcp/" +:+ key).
Proof.
  unfold main_servers.
  destruct (main_loop_filter ord (range_registry ord (DockerCatalog.Registry catalog)) [])
    as (servers & -> & Hservers).
  exists servers. split_and!; [done| |].
  - rewrite (transformed_names _ _ _ Hservers).
    apply (NoDup_fmap_2 _).
    apply (sublist_NoDup _ ((range_registry ord (DockerCatalog.Registry catalog)).*1)).
    + rewrite range_registry_perm. apply NoDup_fst_map_to_list.
    + apply fmap_sublist, sublist_filter.
  - intros server [i Hi]%list_elem_of_lookup.
    destruct (Forall2_lookup_r _ _ _ _ _ Hservers Hi) as ([key entry] & Hin & Htr).
    apply list_elem_of_lookup_2, list_elem_of_filter in Hin as [Htype Hin].
    rewrite range_registry_perm in Hin. apply elem_of_map_to_list in Hin.
    exists key, entry. split_and!; [done..|]. by apply (transformEntry_Name ord _ entry).
Qed.

Lemma main_servers_distinct_names_witness :
  ∃ servers,
    main_servers sorted_order sample_catalog = Some servers ∧
    NoDup (RegistryServer.Name <$> servers) ∧
    ∃ server key entry,
      server ∈ servers ∧
      DockerCatalog.Registry sample_catalog !! key = Some entry ∧
      DockerCatalogEntry.Type_ entry ≠ "remote" ∧
      RegistryServer.Name server = "com.docker.mcp/" +:+ key.
Proof.
  destruct (main_servers_distinct_names sorted_order sample_catalog)
    as (servers & Hmain & Hdistinct & Hnames).
  exists servers. split_and!; [exact Hmain|exact Hdistinct|].
  assert (∃ server, main_servers sorted_order sample_catalog = Some [server])
    as [server Hone] by (eexists; vm_compute; reflexivity).
  rewrite Hone in Hmain. injection Hmain as <-.
  destruct (Hnames server) as (key & entry & Hkey & Htype & Hname); [apply list_elem_of_here|].
  exists server, key, entry. split_and!; [apply list_elem_of_here|done..].
Defined.

(** * The remote branch *)

Lemma header_inputs_pairs (l : list (string * string)) :
  ((λ kv, (KeyValueInput.Name kv, KeyValueInput.Value kv))
     ∘ (λ kv : string * string, KeyValueInput.mk kv.1 kv.2 "" false false false ∅)) <$> l
  = l.
Proof. induction l as [|[??] l IH]; [done|]. by rewrite fmap_cons, IH. Qed.

Lemma header_inputs_names (l : list (string * string)) :
  (KeyValueInput.Name
     ∘ (λ kv : string * string, KeyValueInput.mk kv.1 kv.2 "" false false false ∅)) <$> l
  = l.*1.
Proof. induction l as [|[??] l IH]; [done|]. by rewrite !fmap_cons, IH. Qed.

(** X11: for an entry of type ["remote"] with a remote descriptor, the
    descriptor has no package and no repository reference and exactly one
    remote transport, with the type and URL of the remote descriptor; its
    headers are the entries of the header map, each exactly once, their
    values copied byte for byte (placeholders are not canonicalized) and
    without variables. *)
Theorem transformEntry_remote_transport ord name entry remote :
  DockerCatalogEntry.Type_ entry = "remote" →
  DockerCatalogEntry.Remote entry = Some remote →
  ∃ server transport,
    transformEntry ord name entry = Some server ∧
    RegistryServer.Packages server = [] ∧
    RegistryServer.Repository server = None ∧
    RegistryServer.Remotes server = [transport] ∧
    Transport.Type_ transport = Remote.TransportType remote ∧
    Transport.URL transport = Remote.URL remote ∧
    (λ kv, (KeyValueInput.Name kv, KeyValueInput.Value kv)) <$> Transport.Headers transport
      ≡ₚ map_to_list (Remote.Headers remote) ∧
    NoDup (KeyValueInput.Name <$> Transport.Headers transport) ∧
    (∀ kv, kv ∈ Transport.Headers transport →
       KeyValueInput.Variables kv = ∅ ∧
       KeyValueInput.IsSecret kv = false ∧ KeyValueInput.IsRequired kv = false).
Proof.
  intros Htype Hremote. eexists _, _.
  split; [by apply transformEntry_remote|]. simpl. split_and!; try done.
  all: cbn [Transport.Headers].
  - rewrite <-list_fmap_compose, header_inputs_pairs. apply range_headers_perm.
  - rewrite <-list_fmap_compose, header_inputs_names, range_headers_perm.
    apply NoDup_fst_map_to_list.
  - by intros kv (? & -> & _)%list_elem_of_fmap.
Qed.

Lemma transformEntry_remote_transport_witness :
  ∃ server transport,
    transformEntry sorted_order "r" two_header_entry = Some server ∧
    RegistryServer.Packages server = [] ∧
    RegistryServer.Remotes server = [transport] ∧
    Transport.URL transport = "https://mcp.example.com/sse" ∧
    length (Transport.Headers transport) = 2.
Proof.
  destruct (transformEntry_remote_transport sorted_order "r" two_header_entry
              (Remote.mk "sse" "https://mcp.example.com/sse"
                 (<["Authorization" := "Bearer {token}"]> (<["X-Api-Version" := "2"]> ∅))))
    as (server & transport & Hserver & Hpkg & _ & Hremotes & _ & Hurl & Hheaders & _).
  - reflexivity.
  - reflexivity.
  - exists server, transport. split_and!; [exact Hserver|exact Hpkg|exact Hremotes|exact Hurl|].
    apply Permutation_length in Hheaders. rewrite length_fmap in Hheaders.
    rewrite Hheaders. vm_compute. reflexivity.
Defined.

(** X12: for an entry of type ["remote"] with a remote descriptor,
    [transformEntry] reads neither the image, the secrets, the environment
    variables, the command, the volumes, the config blocks nor the user:
    replacing them leaves the descriptor unchanged. *)
Theorem transformEntry_remote_ignores_package_fields ord name entry
    image secrets env command volumes config user :
  DockerCatalogEntry.Type_ entry = "remote" →
  is_Some (DockerCatalogEntry.Remote entry) →
  transformEntry ord name
    (with_package_fields entry image secrets env command volumes config user)
  = transformEntry ord name entry.
Proof.
  intros Htype [remote Hremote].
  rewrite (transformEntry_remote ord name entry remote) by done.
  by rewrite (transformEntry_remote ord name
                (with_package_fields entry image secrets env command volumes config user)
                remote).
Qed.

Lemma transformEntry_remote_ignores_package_fields_witness :
  transformEntry sorted_order "r"
    (with_package_fields two_header_entry "img:1" [Secret.mk "API_KEY" "KEY_ENV" ""]
       [EnvVar.mk "A" "{{b}}"] ["--x"] ["/v"] [] "root")
  = transformEntry sorted_order "r" two_header_entry.
Proof.
  apply transformEntry_remote_ignores_package_fields.
  - reflexivity.
  - simpl. by eexists.
Defined.

(** * [extractVars] placeholder by placeholder *)

Lemma str_drop_app_ge p s n : str_drop (String.length p + n) (p +:+ s) = str_drop n s.
Proof. by rewrite <-str_drop_drop, str_drop_app_length. Qed.

(** The variables gathered so far only pass through the body. *)
Lemma extractVars_body_variables value configMap start variables :
  extractVars_body value configMap start variables =
  match extractVars_body value configMap start ∅ with
  | Some (Continue start' found) => Some (Continue start' (found ∪ variables))
  | other => other
  end.
Proof.
  unfold extractVars_body.
  destruct (slice_from value start) as [tail|]; [simpl|done].
  destruct (strings.Index tail "{{") as [i|]; [|done].
  destruct (slice_from value (i + start)) as [tail2|]; [simpl|done].
  destruct (strings.Index tail2 "}}") as [j|]; [|done].
  destruct (slice value _ _) as [varContent|]; [simpl|done].
  destruct (_ !! 0) as [varName|]; [simpl|done].
  by rewrite <-insert_union_l, (left_id_L ∅ (∪)).
Qed.

Lemma extractVars_loop_variables value configMap start found variables :
  extractVars_loop value configMap start (found ∪ variables)
  = (λ result, result ∪ variables) <$> extractVars_loop value configMap start found.
Proof.
  revert variables. revert start found.
  apply (extractVars_loop_iter_ind value configMap
           (λ start found, ∀ variables,
              extractVars_loop value configMap start (found ∪ variables)
              = (λ result, result ∪ variables)
                  <$> extractVars_loop value configMap start found)).
  intros start found IH variables.
  rewrite (extractVars_loop_eq _ _ _ (found ∪ variables)), (extractVars_loop_eq _ _ _ found).
  rewrite (extractVars_body_variables _ _ _ (found ∪ variables)).
  pose proof (extractVars_body_variables value configMap start found) as Hfound.
  destruct (extractVars_body value configMap start ∅) as [[|start' one]|]; rewrite Hfound.
  - done.
  - rewrite (assoc_L (∪)). by apply IH.
  - done.
Qed.

(** Behind a prefix [p], the body scans as it does on the rest alone, at
    positions moved by [len(p)]. *)
Lemma extractVars_body_shift p rest configMap start variables :
  start ≤ String.length rest →
  extractVars_body (p +:+ rest) configMap (String.length p + start) variables =
  match extractVars_body rest configMap start variables with
  | Some (Continue start' variables') =>
      Some (Continue (String.length p + start') variables')
  | other => other
  end.
Proof.
  intros Hstart. unfold extractVars_body.
  rewrite !slice_from_le by (rewrite ?str_app_length; lia).
  rewrite str_drop_app_ge. cbn [mbind option_bind].
  destruct (strings.Index (str_drop start rest) "{{") as [i|] eqn:Hi; [|done].
  apply Index_bound in Hi as Hib. rewrite str_drop_length in Hib. simpl in Hib.
  rewrite !slice_from_le by (rewrite ?str_app_length; lia).
  replace (i + (String.length p + start)) with (String.length p + (i + start)) by lia.
  rewrite str_drop_app_ge. cbn [mbind option_bind].
  destruct (strings.Index (str_drop (i + start) rest) "}}") as [j|] eqn:Hj; [|done].
  apply Index_bound in Hj as Hjb. rewrite str_drop_length in Hjb. simpl in Hjb.
  apply Index_Some_prefix in Hi. rewrite str_drop_drop in Hi.
  replace (start + i) with (i + start) in Hi by lia.
  pose proof (Index_close_after_open _ _ Hi Hj).
  rewrite !slice_le by (rewrite ?str_app_length; lia).
  replace (String.length p + (i + start) + 2) with (String.length p + (i + start + 2))
    by lia.
  rewrite str_drop_app_ge.
  replace (j + (String.length p + (i + start)) - (String.length p + (i + start + 2)))
    with (j + (i + start) - (i + start + 2)) by lia.
  cbn [mbind option_bind].
  destruct (strings.Split _ "|" !! 0) as [varName|]; [simpl|done].
  do 2 f_equal. lia.
Qed.

Lemma extractVars_loop_shift p rest configMap start variables :
  start ≤ String.length rest →
  extractVars_loop (p +:+ rest) configMap (String.length p + start) variables
  = extractVars_loop rest configMap start variables.
Proof.
  revert start variables.
  apply (extractVars_loop_iter_ind rest configMap
           (λ start variables, start ≤ String.length rest →
              extractVars_loop (p +:+ rest) configMap (String.length p + start) variables
              = extractVars_loop rest configMap start variables)).
  intros start variables IH Hstart.
  rewrite (extractVars_loop_eq (p +:+ rest)), (extractVars_loop_eq rest).
  rewrite extractVars_body_shift by done.
  destruct (extractVars_body rest configMap start variables)
    as [[|start' variables']|] eqn:Hbody; [done| |done].
  apply IH; [done|]. by apply extractVars_body_progress in Hbody as [_ ?].
Qed.

(** The first pass over a value that begins with a complete placeholder. *)
Lemma extractVars_body_first pre content rest configMap name :
  strings.Index (pre +:+ "{") "{{" = None →
  strings.Index (content +:+ "}}") "}}" = Some (String.length content) →
  strings.Split content "|" !! 0 = Some name →
  extractVars_body (pre +:+ "{{" +:+ content +:+ "}}" +:+ rest) configMap 0 ∅
  = Some (Continue (String.length (pre +:+ "{{" +:+ content +:+ "}}"))
            {[ name := extractVars_schema configMap name ]}).
Proof.
  intros Hpre Hcontent Hname.
  set (value := pre +:+ "{{" +:+ content +:+ "}}" +:+ rest).
  assert (String.length value
          = String.length pre + 2 + String.length content + 2 + String.length rest)
    as Hlen.
  { unfold value. rewrite !str_app_length. simpl. lia. }
  assert (strings.Index value "{{" = Some (String.length pre)) as Hopen.
  { apply Index_intro; [lia| |].
    - unfold value. rewrite str_drop_app_length. apply prefix_app.
    - intros j Hj. unfold value. rewrite str_drop_app_le by lia.
      pose proof (Index_None_prefix _ _ j Hpre) as Hp.
      rewrite str_drop_app_le in Hp by lia.
      change ("{{" +:+ content +:+ "}}" +:+ rest)
        with ("{" +:+ "{" +:+ content +:+ "}}" +:+ rest).
      rewrite <-str_app_assoc. rewrite prefix_app_ext; [done|].
      rewrite str_app_length, str_drop_length. simpl. lia. }
  assert (str_drop (String.length pre) value = "{{" +:+ content +:+ "}}" +:+ rest) as Htail.
  { unfold value. apply str_drop_app_length. }
  assert (strings.Index (str_drop (String.length pre) value) "}}"
          = Some (2 + String.length content)) as Hclose.
  { assert (strings.Index (content +:+ "}}" +:+ rest) "}}" = Some (String.length content))
      as Hfirst by (rewrite <-str_app_assoc; by apply Index_app_l).
    rewrite Htail. rewrite Index_unfold. simpl in Hfirst |- *. by rewrite Hfirst. }
  assert (str_drop (String.length pre + 2) value = content +:+ "}}" +:+ rest) as Hbody.
  { by rewrite <-str_drop_drop, Htail. }
  unfold extractVars_body. rewrite slice_from_le by lia.
  cbn [str_drop mbind option_bind]. rewrite Hopen.
  rewrite Nat.add_0_r. rewrite slice_from_le by lia. cbn [mbind option_bind].
  rewrite Hclose. rewrite slice_le by lia. cbn [mbind option_bind].
  rewrite Hbody.
  replace (2 + String.length content + String.length pre - (String.length pre + 2))
    with (String.length content) by lia.
  rewrite str_take_app_length, Hname. cbn [mbind option_bind].
  do 2 f_equal. rewrite !str_app_length. simpl. lia.
Qed.

(** X3: [extractVars] works placeholder by placeholder.  For a value made
    of a prefix in which no ["{{"] starts, a placeholder whose ["}}"] is the
    first one behind its opening, and a rest, the result is the variables of
    the rest together with the placeholder's own name, which is the part of
    its content before the first ["|"]. *)
Theorem extractVars_first_placeholder pre content rest configMap name :
  strings.Index (pre +:+ "{") "{{" = None →
  strings.Index (content +:+ "}}") "}}" = Some (String.length content) →
  strings.Split content "|" !! 0 = Some name →
  ∃ later,
    extractVars rest configMap = Some later ∧
    extractVars (pre +:+ "{{" +:+ content +:+ "}}" +:+ rest) configMap
    = Some (later ∪ {[ name := extractVars_schema configMap name ]}).
Proof.
  intros Hpre Hcontent Hname.
  destruct (extractVars_no_panic rest configMap) as [later Hlater].
  exists later. split; [done|]. unfold extractVars in *.
  rewrite extractVars_loop_eq.
  rewrite (extractVars_body_first _ _ _ _ _ Hpre Hcontent Hname).
  pose proof (extractVars_loop_shift (pre +:+ "{{" +:+ content +:+ "}}") rest configMap 0
                {[ name := extractVars_schema configMap name ]} ltac:(lia)) as Hshift.
  rewrite Nat.add_0_r, <-!str_app_assoc in Hshift.
  rewrite <-!str_app_assoc. rewrite Hshift.
  rewrite <-(left_id_L ∅ (∪) {[ name := extractVars_schema configMap name ]}) at 1.
  by rewrite extractVars_loop_variables, Hlater.
Qed.

Lemma extractVars_first_placeholder_witness :
  ∃ later,
    extractVars ":{{mode}}" ∅ = Some later ∧
    extractVars ("/srv/" +:+ "{{" +:+ "fs.path|volume" +:+ "}}" +:+ ":{{mode}}") ∅
    = Some (later ∪ {[ "fs.path" := extractVars_schema ∅ "fs.path" ]}).
Proof.
  apply (extractVars_first_placeholder "/srv/" "fs.path|volume" ":{{mode}}" ∅ "fs.path");
    reflexivity.
Defined.

(** * The trailing-slash redirect *)

Lemma HasSuffix_app p suffix : strings.HasSuffix (p +:+ suffix) suffix = true.
Proof.
  unfold strings.HasSuffix. rewrite str_app_length.
  replace (String.length p + String.length suffix - String.length suffix)
    with (String.length p) by lia.
  rewrite str_drop_app_length, String.eqb_refl, andb_true_r.
  apply bool_decide_eq_true. lia.
Qed.

Lemma HasSuffix_inv s suffix :
  strings.HasSuffix s suffix = true →
  s = str_take (String.length s - String.length suffix) s +:+ suffix.
Proof.
  unfold strings.HasSuffix. intros [_ Heq%String.eqb_eq]%andb_true_iff.
  rewrite <-Heq at 2. by rewrite str_take_drop.
Qed.

Lemma TrimSuffix_app p suffix : strings.TrimSuffix (p +:+ suffix) suffix = p.
Proof.
  unfold strings.TrimSuffix. rewrite HasSuffix_app, str_app_length.
  replace (String.length p + String.length suffix - String.length suffix)
    with (String.length p) by lia.
  apply str_take_app_length.
Qed.

Lemma str_app_inj_r p q suffix : p +:+ suffix = q +:+ suffix → p = q.
Proof.
  intros Heq. rewrite <-(TrimSuffix_app p suffix), Heq. apply TrimSuffix_app.
Qed.

(** The two ways through [TrailingSlashMiddleware]. *)
Lemma TrailingSlashMiddleware_cases URL_String Redirect next w r :
  (∃ p, p ≠ "" ∧ url.Path (http.URL r) = p +:+ "/" ∧
        api.TrailingSlashMiddleware URL_String Redirect next w r
        = Some (Redirect w r (URL_String (url.set_Path (http.URL r) p))
                  http.StatusPermanentRedirect))
  ∨ ((url.Path (http.URL r) = "/" ∨ strings.HasSuffix (url.Path (http.URL r)) "/" = false) ∧
     api.TrailingSlashMiddleware URL_String Redirect next w r = next w r).
Proof.
  unfold api.TrailingSlashMiddleware.
  destruct (decide (url.Path (http.URL r) = "/")) as [Hroot|Hroot].
  { right. split; [by left|]. rewrite bool_decide_eq_false_2; [done|]. by intros []. }
  rewrite bool_decide_eq_true_2 by done. cbn [andb].
  destruct (strings.HasSuffix (url.Path (http.URL r)) "/") eqn:Hsuffix.
  - left. apply HasSuffix_inv in Hsuffix as Hpath.
    set (p := str_take _ _) in Hpath. exists p. split_and!; [|done|].
    + intros Hp. rewrite Hp in Hpath. done.
    + by rewrite Hpath at 1; rewrite TrimSuffix_app.
  - right. split; [by right|done].
Qed.

(** X13: [TrailingSlashMiddleware] answers a request whose path is a
    non-empty [p] followed by a slash with a 308 redirect to the same URL
    with the path [p], that is with exactly one slash removed, and does not
    consult the wrapped handler; a request for ["/"] or for a path that does
    not end in a slash is handed to the wrapped handler as it is. *)
Theorem TrailingSlashMiddleware_removes_one_slash URL_String Redirect next w r :
  (∀ p, p ≠ "" → url.Path (http.URL r) = p +:+ "/" →
        api.TrailingSlashMiddleware URL_String Redirect next w r
        = Some (Redirect w r (URL_String (url.set_Path (http.URL r) p)) 308%Z)) ∧
  (url.Path (http.URL r) = "/" ∨ strings.HasSuffix (url.Path (http.URL r)) "/" = false →
   api.TrailingSlashMiddleware URL_String Redirect next w r = next w r).
Proof.
  destruct (TrailingSlashMiddleware_cases URL_String Redirect next w r)
    as [(q & Hq & Hpath & Hredirect)|[Hkeep Hpass]].
  - split.
    + intros p _ Hp. rewrite Hpath in Hp. apply str_app_inj_r in Hp. by subst q.
    + intros [Hroot|Hsuffix].
      * rewrite Hpath in Hroot. destruct q as [|c q]; [done|]. by destruct q.
      * by rewrite Hpath, HasSuffix_app in Hsuffix.
  - split; [|done]. intros p Hp Hpath. destruct Hkeep as [Hroot|Hsuffix].
    + rewrite Hpath in Hroot. destruct p as [|c p]; [done|]. by destruct p.
    + by rewrite Hpath, HasSuffix_app in Hsuffix.
Qed.

Lemma TrailingSlashMiddleware_removes_one_slash_witness :
  api.TrailingSlashMiddleware sample_URL_String sample_Redirect (λ _ _, None) fresh_writer
    (sample_request "POST" "/v0/servers/" "https://example.com")
  = Some (http.mkResponseWriter {[ "Location" := ["/v0/servers"] ]} (Some 308%Z)) ∧
  api.TrailingSlashMiddleware sample_URL_String sample_Redirect sample_mux fresh_writer
    (sample_request "POST" "/" "https://example.com")
  = Some (http.mkResponseWriter ∅ (Some 204%Z)).
Proof.
  split.
  - rewrite (proj1 (TrailingSlashMiddleware_removes_one_slash sample_URL_String
                      sample_Redirect (λ _ _, None) fresh_writer
                      (sample_request "POST" "/v0/servers/" "https://example.com"))
               "/v0/servers"); [|discriminate|reflexivity].
    vm_compute. reflexivity.
  - rewrite (proj2 (TrailingSlashMiddleware_removes_one_slash sample_URL_String
                      sample_Redirect sample_mux fresh_writer
                      (sample_request "POST" "/" "https://example.com")));
      [|left; reflexivity].
    vm_compute. reflexivity.
Defined.

(** * The CORS headers *)

Lemma cors_keys_canonical :
  Forall (λ key, http.CanonicalMIMEHeaderKey key = key) ("Origin" :: cors_keys).
Proof. repeat constructor. Qed.

Lemma set_cors_headers_header w origin :
  http.ResponseHeader (api.set_cors_headers w origin)
  = <["Access-Control-Max-Age" := ["86400"]]>
      (<["Access-Control-Allow-Headers" := ["Content-Type, X-Requested-With"]]>
         (<["Access-Control-Allow-Methods" := ["GET, POST, PUT, DELETE, OPTIONS"]]>
            (<["Access-Control-Allow-Origin" := [origin]]> (http.ResponseHeader w)))).
Proof. reflexivity. Qed.

Lemma set_cors_headers_values w origin :
  let header := http.ResponseHeader (api.set_cors_headers w origin) in
  http.Header_Get header "Access-Control-Allow-Origin" = origin ∧
  http.Header_Get header "Access-Control-Allow-Methods" = "GET, POST, PUT, DELETE, OPTIONS" ∧
  http.Header_Get header "Access-Control-Allow-Headers" = "Content-Type, X-Requested-With" ∧
  http.Header_Get header "Access-Control-Max-Age" = "86400" ∧
  (∀ key, key ∉ cors_keys → header !! key = http.ResponseHeader w !! key) ∧
  http.Status (api.set_cors_headers w origin) = http.Status w.
Proof.
  intros header. subst header. rewrite set_cors_headers_header.
  unfold http.Header_Get.
  change (http.CanonicalMIMEHeaderKey "Access-Control-Allow-Origin")
    with "Access-Control-Allow-Origin".
  change (http.CanonicalMIMEHeaderKey "Access-Control-Allow-Methods")
    with "Access-Control-Allow-Methods".
  change (http.CanonicalMIMEHeaderKey "Access-Control-Allow-Headers")
    with "Access-Control-Allow-Headers".
  change (http.CanonicalMIMEHeaderKey "Access-Control-Max-Age")
    with "Access-Control-Max-Age".
  split_and!.
  - by rewrite !lookup_insert_ne, lookup_insert by done.
  - by rewrite !lookup_insert_ne, lookup_insert by done.
  - by rewrite lookup_insert_ne, lookup_insert by done.
  - by rewrite lookup_insert.
  - intros key Hkey. unfold cors_keys in Hkey.
    rewrite !lookup_insert_ne; [done|..]; intros <-; apply Hkey; set_solver.
  - done.
Qed.

(** [CORSMiddleware] either fails for every wrapped handler, or gives for
    each one a handler that decides by one and the same test on the origin. *)
Lemma CORSMiddleware_handler glob_Compile cfg :
  (config.AllowedOriginsGlob cfg ≠ "" ∧
   glob_Compile (config.AllowedOriginsGlob cfg) = None ∧
   ∀ next, api.CORSMiddleware glob_Compile cfg next = None)
  ∨ ∃ allowed : string → bool,
      (config.AllowedOriginsGlob cfg = "" → ∀ origin, allowed origin = false) ∧
      (∀ matcher, config.AllowedOriginsGlob cfg ≠ "" →
         glob_Compile (config.AllowedOriginsGlob cfg) = Some matcher →
         ∀ origin, allowed origin = matcher origin) ∧
      (config.AllowedOriginsGlob cfg ≠ "" →
       is_Some (glob_Compile (config.AllowedOriginsGlob cfg))) ∧
      ∀ next, ∃ handler,
        api.CORSMiddleware glob_Compile cfg next = Some handler ∧
        ∀ w r,
          handler w r =
          let origin := http.Header_Get (http.Header r) "Origin" in
          let w' := if allowed origin then api.set_cors_headers w origin else w in
          if decide (http.Method r = "OPTIONS")
          then Some (http.WriteHeader w' http.StatusOK)
          else next w' r.
Proof.
  unfold api.CORSMiddleware.
  destruct (decide (config.AllowedOriginsGlob cfg ≠ "")) as [Hglob|Hglob].
  - destruct (glob_Compile (config.AllowedOriginsGlob cfg)) as [matcher|] eqn:Hcompile.
    + right. exists matcher. split_and!; [done| |done|].
      * by intros matcher' _ [= <-].
      * intros next. eexists. split; [done|]. intros w r. simpl. by destruct (matcher _).
    + by left.
  - right. exists (λ _, false). split_and!; [done|done|done|].
    intros next. eexists. split; [done|]. done.
Qed.

(** X15: a preflight request never reaches the wrapped handler.  For the
    method [OPTIONS] the handler of [CORSMiddleware] returns normally with
    the same response whatever handler it wraps, even one that panics; the
    status is 200 unless a status had been sent before, which is then
    kept. *)
Theorem CORSMiddleware_preflight_answered glob_Compile cfg next next' handler handler' w r :
  api.CORSMiddleware glob_Compile cfg next = Some handler →
  api.CORSMiddleware glob_Compile cfg next' = Some handler' →
  http.Method r = "OPTIONS" →
  ∃ w',
    handler w r = Some w' ∧ handler' w r = Some w' ∧
    http.Status w' = Some (default 200%Z (http.Status w)).
Proof.
  intros Hhandler Hhandler' Hmethod.
  destruct (CORSMiddleware_handler glob_Compile cfg)
    as [(_ & _ & Hfail)|(allowed & _ & _ & _ & Hbuilt)].
  { by rewrite Hfail in Hhandler. }
  destruct (Hbuilt next) as (h & Hh & Hrun).
  destruct (Hbuilt next') as (h' & Hh' & Hrun').
  assert (h = handler) as -> by congruence.
  assert (h' = handler') as -> by congruence.
  rewrite Hrun, Hrun'. simpl. rewrite !decide_True by done.
  eexists. split_and!; [done..|].
  destruct w as [header [status|]]; by destruct (allowed _).
Qed.

Lemma CORSMiddleware_preflight_answered_witness :
  ∃ handler handler' w',
    api.CORSMiddleware sample_glob_Compile
      (config.mkConfig ":8080" "" "https://*") sample_mux = Some handler ∧
    api.CORSMiddleware sample_glob_Compile
      (config.mkConfig ":8080" "" "https://*") (λ _ _, None) = Some handler' ∧
    handler fresh_writer (sample_request "OPTIONS" "/v0/servers" "https://example.com")
    = Some w' ∧
    handler' fresh_writer (sample_request "OPTIONS" "/v0/servers" "https://example.com")
    = Some w' ∧
    http.Status w' = Some 200%Z.
Proof.
  eexists _, _.
  destruct (CORSMiddleware_preflight_answered sample_glob_Compile
              (config.mkConfig ":8080" "" "https://*") sample_mux (λ _ _, None) _ _
              fresh_writer (sample_request "OPTIONS" "/v0/servers" "https://example.com")
              eq_refl eq_refl eq_refl) as (w' & H1 & H2 & H3).
  exists w'. split_and!; [reflexivity|reflexivity|exact H1|exact H2|exact H3].
Defined.

(** X16: for an origin that the compiled glob matches, the response
    writer that the wrapped handler receives (or, for a preflight request,
    that is answered with) carries the four CORS headers:
    [Access-Control-Allow-Origin] is the origin of the request itself, byte
    for byte, the other three are the constants of the code; no other
    header and no status is touched. *)
Theorem CORSMiddleware_allowed_origin glob_Compile cfg next handler matcher w r :
  api.CORSMiddleware glob_Compile cfg next = Some handler →
  config.AllowedOriginsGlob cfg ≠ "" →
  glob_Compile (config.AllowedOriginsGlob cfg) = Some matcher →
  matcher (http.Header_Get (http.Header r) "Origin") = true →
  ∃ w',
    handler w r = (if decide (http.Method r = "OPTIONS")
                   then Some (http.WriteHeader w' 200%Z) else next w' r) ∧
    http.Header_Get (http.ResponseHeader w') "Access-Control-Allow-Origin"
    = http.Header_Get (http.Header r) "Origin" ∧
    http.Header_Get (http.ResponseHeader w') "Access-Control-Allow-Methods"
    = "GET, POST, PUT, DELETE, OPTIONS" ∧
    http.Header_Get (http.ResponseHeader w') "Access-Control-Allow-Headers"
    = "Content-Type, X-Requested-With" ∧
    http.Header_Get (http.ResponseHeader w') "Access-Control-Max-Age" = "86400" ∧
    (∀ key, key ∉ cors_keys →
       http.ResponseHeader w' !! key = http.ResponseHeader w !! key) ∧
    http.Status w' = http.Status w.
Proof.
  intros Hhandler Hglob Hcompile Hmatch.
  destruct (CORSMiddleware_handler glob_Compile cfg)
    as [(_ & _ & Hfail)|(allowed & _ & Hallowed & _ & Hbuilt)].
  { by rewrite Hfail in Hhandler. }
  destruct (Hbuilt next) as (h & Hh & Hrun).
  assert (h = handler) as -> by congruence.
  exists (api.set_cors_headers w (http.Header_Get (http.Header r) "Origin")).
  split.
  - rewrite Hrun. simpl. by rewrite (Hallowed matcher Hglob Hcompile), Hmatch.
  - apply set_cors_headers_values.
Qed.

Lemma CORSMiddleware_allowed_origin_witness :
  ∃ handler w',
    api.CORSMiddleware sample_glob_Compile
      (config.mkConfig ":8080" "" "https://*") sample_mux = Some handler ∧
    handler fresh_writer (sample_request "GET" "/v0/servers" "https://example.com")
    = sample_mux w' (sample_request "GET" "/v0/servers" "https://example.com") ∧
    http.Header_Get (http.ResponseHeader w') "Access-Control-Allow-Origin"
    = "https://example.com" ∧
    http.ResponseHeader w' !! "Content-Type" = None.
Proof.
  eexists.
  destruct (CORSMiddleware_allowed_origin sample_glob_Compile
              (config.mkConfig ":8080" "" "https://*") sample_mux _
              (λ s, strings.HasPrefix s "https://") fresh_writer
              (sample_request "GET" "/v0/servers" "https://example.com")
              eq_refl ltac:(discriminate) eq_refl eq_refl)
    as (w' & Hrun & Horigin & _ & _ & _ & Hother & _).
  exists w'. split_and!.
  - reflexivity.
  - exact Hrun.
  - exact Horigin.
  - rewrite Hother; [reflexivity|]. apply (bool_decide_unpack _). vm_compute. exact I.
Defined.

(** X17: [CORSMiddleware] panics only while it is built, and exactly when
    a non-empty glob does not compile.  Once built, the handler panics only
    if the wrapped handler does: the glob, which stays nil for an empty
    pattern, is never matched against then.  With the empty pattern the
    middleware is built whatever the glob library does, and no request gets
    a CORS header: any origin is refused. *)
Theorem CORSMiddleware_nil_glob_never_matched glob_Compile cfg next :
  (api.CORSMiddleware glob_Compile cfg next = None ↔
   config.AllowedOriginsGlob cfg ≠ "" ∧
   glob_Compile (config.AllowedOriginsGlob cfg) = None) ∧
  (∀ handler w r,
     api.CORSMiddleware glob_Compile cfg next = Some handler →
     handler w r = None → ∃ w', next w' r = None) ∧
  (config.AllowedOriginsGlob cfg = "" →
   ∃ handler,
     api.CORSMiddleware glob_Compile cfg next = Some handler ∧
     ∀ w r, handler w r = if decide (http.Method r = "OPTIONS")
                          then Some (http.WriteHeader w 200%Z) else next w r).
Proof.
  destruct (CORSMiddleware_handler glob_Compile cfg)
    as [(Hglob & Hcompile & Hfail)|(allowed & Hempty & _ & Hcompiled & Hbuilt)].
  - split_and!.
    + by rewrite Hfail.
    + intros handler w r Hhandler. by rewrite Hfail in Hhandler.
    + done.
  - destruct (Hbuilt next) as (h & Hh & Hrun). split_and!.
    + rewrite Hh. split; [done|]. intros [Hglob Hcompile].
      destruct (Hcompiled Hglob) as [matcher Hmatcher]. congruence.
    + intros handler w r Hhandler. assert (h = handler) as -> by congruence.
      rewrite Hrun. simpl. destruct (decide (http.Method r = "OPTIONS")); [done|]. eauto.
    + intros Hglob. exists h. split; [done|]. intros w r.
      rewrite Hrun. simpl. by rewrite (Hempty Hglob).
Qed.

Lemma CORSMiddleware_nil_glob_never_matched_witness :
  ∃ handler,
    api.CORSMiddleware (λ _, None) (config.mkConfig ":8080" "" "") sample_mux
    = Some handler ∧
    handler fresh_writer (sample_request "GET" "/v0/servers" "https://example.com")
    = Some (http.mkResponseWriter ∅ (Some 204%Z)).
Proof.
  destruct (proj2 (proj2 (CORSMiddleware_nil_glob_never_matched (λ _, None)
                            (config.mkConfig ":8080" "" "") sample_mux)) eq_refl)
    as (handler & Hhandler & Hrun).
  exists handler. split; [exact Hhandler|]. rewrite Hrun. reflexivity.
Defined.

(** * The list of allowed origins *)

Lemma slices_Index_None (s : list string) (v : string) :
  slices.Index s v = None ↔ v ∉ s.
Proof.
  induction s as [|x s IH]; simpl.
  - split; [|done]. intros _. apply not_elem_of_nil.
  - rewrite not_elem_of_cons, <-IH.
    destruct (String.eqb_spec v x) as [->|Hne].
    + split; [done|]. by intros [].
    + destruct (slices.Index s v); simpl; split; try done. by intros [].
Qed.

Lemma slices_Contains_elem_of (s : list string) (v : string) :
  slices.Contains s v = bool_decide (v ∈ s).
Proof.
  unfold slices.Contains. destruct (slices.Index s v) eqn:Hindex.
  - symmetry. apply bool_decide_eq_true. destruct (decide (v ∈ s)) as [|Hnot]; [done|].
    apply slices_Index_None in Hnot. congruence.
  - symmetry. apply bool_decide_eq_false. by apply slices_Index_None.
Qed.

(** No piece of a split holds the separator, when the split is allowed
    enough cuts. *)
Lemma genSplit_no_sep n s sep piece :
  sep ≠ "" → String.length s ≤ n →
  piece ∈ strings.genSplit n s sep → strings.Index piece sep = None.
Proof.
  intros Hsep. revert s. induction n as [|n IH]; intros s Hlen; simpl.
  - intros ->%list_elem_of_singleton.
    destruct s; [|simpl in Hlen; lia]. by destruct sep.
  - destruct (strings.Index s sep) as [m|] eqn:Hm.
    + intros [->|Hin]%elem_of_cons.
      * by apply Index_take_None.
      * apply (IH (str_drop (m + String.length sep) s)); [|done].
        rewrite str_drop_length. apply Index_bound in Hm.
        destruct sep; [done|]. simpl in *. lia.
    + by intros ->%list_elem_of_singleton.
Qed.

Lemma Index_single_first x c rest :
  strings.Index x (String c "") = None →
  strings.Index (x +:+ String c "" +:+ rest) (String c "") = Some (String.length x).
Proof.
  intros Hx. apply Index_intro.
  - rewrite str_app_length. lia.
  - rewrite str_drop_app_length. apply prefix_app.
  - intros j Hj. rewrite str_drop_app_le by lia.
    pose proof (Index_None_prefix _ _ j Hx) as Hprefix.
    pose proof (str_drop_length j x) as Hdrop.
    destruct (str_drop j x) as [|a y]; [simpl in Hdrop; lia|].
    cbn [String.prefix String.append] in Hprefix |- *.
    destruct (Ascii.ascii_dec c a); [|done]. by rewrite prefix_nil in Hprefix.
Qed.

(** Splitting at the commas undoes joining with commas. *)
Lemma genSplit_concat (l : list string) :
  l ≠ [] → Forall (λ x, strings.Index x "," = None) l →
  ∀ n, length l ≤ S n → strings.genSplit n (String.concat "," l) "," = l.
Proof.
  induction l as [|x l IH]; [done|]. intros _ Hfree n Hn.
  apply Forall_cons in Hfree as [Hx Hfree].
  destruct l as [|y l].
  - simpl. destruct n; [done|]. simpl. by rewrite Hx.
  - change (String.concat "," (x :: y :: l))
      with (x +:+ "," +:+ String.concat "," (y :: l)).
    destruct n as [|n]; [simpl in Hn; lia|].
    cbn [strings.genSplit]. rewrite (Index_single_first x "," _ Hx).
    rewrite str_take_app_length, str_drop_app_ge. f_equal.
    change (str_drop (String.length ",") ("," +:+ String.concat "," (y :: l)))
      with (String.concat "," (y :: l)).
    apply IH; [done|done|simpl in *; lia].
Qed.

Lemma concat_length (l : list string) :
  length l ≤ S (String.length (String.concat "," l)).
Proof.
  induction l as [|x l IH]; simpl; [lia|].
  destruct l as [|y l]; [simpl; lia|].
  rewrite !str_app_length. simpl in *. lia.
Qed.

Lemma Split_concat (l : list string) :
  l ≠ [] → Forall (λ x, strings.Index x "," = None) l →
  strings.Split (String.concat "," l) "," = l.
Proof.
  intros Hne Hfree. apply genSplit_concat; [done..|]. apply concat_length.
Qed.

Lemma Contains_false_Index s sub : strings.Contains s sub = false ↔ strings.Index s sub = None.
Proof. unfold strings.Contains. by destruct (strings.Index s sub). Qed.

(** The handler of the list revision, by the test it makes. *)
Lemma CORSMiddleware_origins_run cfg next w r :
  api.CORSMiddleware_origins cfg next w r =
  let origin := http.Header_Get (http.Header r) "Origin" in
  let w' := if bool_decide (origin ∈ strings.Split (config.AllowedOrigins cfg) ",")
            then api.set_cors_headers w origin else w in
  if decide (http.Method r = "OPTIONS")
  then Some (http.WriteHeader w' http.StatusOK)
  else next w' r.
Proof. unfold api.CORSMiddleware_origins. by rewrite slices_Contains_elem_of. Qed.

(** X18: in the revision that lists the allowed origins, a configuration
    written as comma-free origins joined by commas allows exactly the
    listed origins: the CORS headers are set if and only if the [Origin]
    header of the request is, byte for byte, one of them. *)
Theorem CORSMiddleware_origins_allows_listed cfg origins next w r :
  origins ≠ [] →
  Forall (λ origin, strings.Contains origin "," = false) origins →
  config.AllowedOrigins cfg = String.concat "," origins →
  api.CORSMiddleware_origins cfg next w r =
  let origin := http.Header_Get (http.Header r) "Origin" in
  let w' := if bool_decide (origin ∈ origins)
            then api.set_cors_headers w origin else w in
  if decide (http.Method r = "OPTIONS")
  then Some (http.WriteHeader w' 200%Z)
  else next w' r.
Proof.
  intros Hne Hfree Hcfg. rewrite CORSMiddleware_origins_run, Hcfg, Split_concat; [done..|].
  eapply Forall_impl; [exact Hfree|]. intros origin. apply Contains_false_Index.
Qed.

Lemma CORSMiddleware_origins_allows_listed_witness :
  api.CORSMiddleware_origins
    (config.mkConfig ":8080" "https://a.example,https://b.example" "") sample_mux
    fresh_writer (sample_request "GET" "/v0/servers" "https://b.example")
  = sample_mux (api.set_cors_headers fresh_writer "https://b.example")
      (sample_request "GET" "/v0/servers" "https://b.example") ∧
  api.CORSMiddleware_origins
    (config.mkConfig ":8080" "https://a.example,https://b.example" "") sample_mux
    fresh_writer (sample_request "GET" "/v0/servers" "https://b.example.evil.test")
  = sample_mux fresh_writer
      (sample_request "GET" "/v0/servers" "https://b.example.evil.test").
Proof.
  split.
  - rewrite (CORSMiddleware_origins_allows_listed
               (config.mkConfig ":8080" "https://a.example,https://b.example" "")
               ["https://a.example"; "https://b.example"]).
    + reflexivity.
    + discriminate.
    + repeat constructor.
    + reflexivity.
  - rewrite (CORSMiddleware_origins_allows_listed
               (config.mkConfig ":8080" "https://a.example,https://b.example" "")
               ["https://a.example"; "https://b.example"]).
    + reflexivity.
    + discriminate.
    + repeat constructor.
    + reflexivity.
Defined.

(** X19: edge cases of the list revision.  An origin that holds a comma is
    never allowed, whatever the configuration.  With the empty
    configuration the list is not empty: it holds the empty string, so a
    request without an [Origin] header gets the CORS headers, with an empty
    [Access-Control-Allow-Origin], and every other origin is refused. *)
Theorem CORSMiddleware_origins_edge_cases cfg next w r :
  let origin := http.Header_Get (http.Header r) "Origin" in
  let refused := if decide (http.Method r = "OPTIONS")
                 then Some (http.WriteHeader w 200%Z) else next w r in
  (strings.Contains origin "," = true →
   api.CORSMiddleware_origins cfg next w r = refused) ∧
  (config.AllowedOrigins cfg = "" → origin ≠ "" →
   api.CORSMiddleware_origins cfg next w r = refused) ∧
  (config.AllowedOrigins cfg = "" → origin = "" →
   api.CORSMiddleware_origins cfg next w r =
   if decide (http.Method r = "OPTIONS")
   then Some (http.WriteHeader (api.set_cors_headers w "") 200%Z)
   else next (api.set_cors_headers w "") r).
Proof.
  intros origin refused. subst origin refused. split_and!.
  - intros Hcomma. rewrite CORSMiddleware_origins_run. simpl.
    rewrite bool_decide_eq_false_2; [done|]. intros Hin.
    apply genSplit_no_sep in Hin; [|done..].
    apply Contains_false_Index in Hin. congruence.
  - intros Hcfg Horigin. rewrite CORSMiddleware_origins_run, Hcfg. simpl.
    rewrite bool_decide_eq_false_2; [done|].
    intros Hin%list_elem_of_singleton. exact (Horigin Hin).
  - intros Hcfg Horigin. rewrite CORSMiddleware_origins_run, Hcfg. cbv zeta.
    rewrite Horigin. rewrite bool_decide_eq_true_2; [done|].
    by apply list_elem_of_singleton.
Qed.

Lemma CORSMiddleware_origins_edge_cases_witness :
  api.CORSMiddleware_origins (config.mkConfig ":8080" "https://a.example,https://b.example" "")
    sample_mux fresh_writer
    (sample_request "GET" "/v0/servers" "https://a.example,https://b.example")
  = Some (http.mkResponseWriter ∅ (Some 204%Z)) ∧
  api.CORSMiddleware_origins (config.mkConfig ":8080" "" "")
    sample_mux fresh_writer (sample_request "GET" "/v0/servers" "https://a.example")
  = Some (http.mkResponseWriter ∅ (Some 204%Z)) ∧
  api.CORSMiddleware_origins (config.mkConfig ":8080" "" "")
    sample_mux fresh_writer (http.mkRequest "GET" (url.mkURL "" "" None "" "/" "" false false "" "" "") ∅)
  = Some (http.WriteHeader (api.set_cors_headers fresh_writer "") 204%Z).
Proof.
  split_and!.
  - apply (proj1 (CORSMiddleware_origins_edge_cases
                    (config.mkConfig ":8080" "https://a.example,https://b.example" "")
                    sample_mux fresh_writer
                    (sample_request "GET" "/v0/servers"
                       "https://a.example,https://b.example"))).
    reflexivity.
  - apply (proj1 (proj2 (CORSMiddleware_origins_edge_cases (config.mkConfig ":8080" "" "")
                           sample_mux fresh_writer
                           (sample_request "GET" "/v0/servers" "https://a.example"))));
      [reflexivity|discriminate].
  - apply (proj2 (proj2 (CORSMiddleware_origins_edge_cases (config.mkConfig ":8080" "" "")
                           sample_mux fresh_writer
                           (http.mkRequest "GET"
                              (url.mkURL "" "" None "" "/" "" false false "" "" "") ∅))));
      reflexivity.
Defined.

(** * The handler of the server *)

(** X20: in the handler of [NewServer] the redirect comes first.  The
    server is built exactly when [CORSMiddleware] is; a request whose path
    is a non-empty [p] followed by a slash is answered with the 308 redirect
    on the untouched response writer: no CORS header is set for it, a
    preflight request is not answered with 200, and neither the CORS
    handler nor the multiplexer sees it.  Any other request gets what the
    CORS handler answers; the server listens on the configured address. *)
Theorem NewServer_redirects_before_cors URL_String Redirect glob_Compile cfg mux :
  (api.NewServer URL_String Redirect glob_Compile cfg mux = None ↔
   api.CORSMiddleware glob_Compile cfg mux = None) ∧
  ∀ server,
    api.NewServer URL_String Redirect glob_Compile cfg mux = Some server →
    api.Addr server = config.ServerAddress cfg ∧
    ∃ cors,
      api.CORSMiddleware glob_Compile cfg mux = Some cors ∧
      (∀ w r p, p ≠ "" → url.Path (http.URL r) = p +:+ "/" →
         api.Handler server w r
         = Some (Redirect w r (URL_String (url.set_Path (http.URL r) p)) 308%Z)) ∧
      (∀ w r, url.Path (http.URL r) = "/"
              ∨ strings.HasSuffix (url.Path (http.URL r)) "/" = false →
         api.Handler server w r = cors w r).
Proof.
  unfold api.NewServer.
  destruct (api.CORSMiddleware glob_Compile cfg mux) as [cors|]; simpl; [|done].
  split; [done|]. intros server [= <-]. simpl. split; [done|].
  exists cors. split_and!; [done| |].
  - intros w r p Hp Hpath.
    destruct (TrailingSlashMiddleware_cases URL_String Redirect cors w r)
      as [(q & _ & Hq & ->)|[[Hroot|Hsuffix] _]].
    + rewrite Hpath in Hq. apply str_app_inj_r in Hq. by subst q.
    + rewrite Hpath in Hroot. destruct p as [|c p]; [done|]. by destruct p.
    + by rewrite Hpath, HasSuffix_app in Hsuffix.
  - intros w r Hkeep.
    destruct (TrailingSlashMiddleware_cases URL_String Redirect cors w r)
      as [(q & Hq & Hpath & _)|[_ Hpass]]; [|done].
    destruct Hkeep as [Hroot|Hsuffix].
    + rewrite Hpath in Hroot. destruct q as [|c q]; [done|]. by destruct q.
    + by rewrite Hpath, HasSuffix_app in Hsuffix.
Qed.

Lemma NewServer_redirects_before_cors_witness :
  ∃ server,
    api.NewServer sample_URL_String sample_Redirect sample_glob_Compile
      (config.mkConfig ":8080" "" "https://*") sample_mux = Some server ∧
    api.Addr server = ":8080" ∧
    api.Handler server fresh_writer
      (sample_request "OPTIONS" "/v0/servers/" "https://example.com")
    = Some (http.mkResponseWriter {[ "Location" := ["/v0/servers"] ]} (Some 308%Z)).
Proof.
  eexists. split; [reflexivity|].
  destruct (proj2 (NewServer_redirects_before_cors sample_URL_String sample_Redirect
                     sample_glob_Compile (config.mkConfig ":8080" "" "https://*")
                     sample_mux) _ eq_refl) as (Haddr & cors & _ & Hredirect & _).
  split; [exact Haddr|].
  rewrite (Hredirect fresh_writer
             (sample_request "OPTIONS" "/v0/servers/" "https://example.com")
             "/v0/servers"); [|discriminate|reflexivity].
  vm_compute. reflexivity.
Defined.
